(** * SEGB fixture generator (generate_test_files.py): model and properties

    The script writes two binary containers, "segb_version1.bin" and
    "segb_version2.bin", from a list of entries (a text and a date each).
    The model below follows the script statement by statement.  The Python
    library calls it makes (struct.pack, binascii.crc32, str.encode,
    datetime arithmetic) are modelled by executable functions; an exception
    raised by any of them aborts the script, which is modelled by an error
    monad. *)

From Stdlib Require Import ZArith List Lia Bool.
From Stdlib.Strings Require Import Byte.
Import ListNotations.
Local Open Scope Z_scope.

(* ================================================================== *)
(** * Python exceptions *)

Inductive exn : Set :=
| UnicodeEncodeError
| StructError
| TypeError
| OverflowError
| ZeroDivisionError.

Inductive result (A : Type) : Type :=
| Ok (a : A)
| Raise (e : exn).
Arguments Ok {A} a.
Arguments Raise {A} e.

Definition bind {A B : Type} (m : result A) (k : A -> result B) : result B :=
  match m with
  | Ok a => k a
  | Raise e => Raise e
  end.

Notation "x <- m ;; k" := (bind m (fun x => k))
  (at level 61, m at next level, right associativity).

(* ================================================================== *)
(** * Bytes, bytearrays and slices *)

Definition byte_of_Z (z : Z) : byte :=
  match Byte.of_N (Z.to_N (z mod 256)) with
  | Some b => b
  | None => x00
  end.

Definition Z_of_byte (b : byte) : Z := Z.of_N (Byte.to_N b).

Definition bytes := list byte.

(** [len(b)] as a Python int. *)
Definition len {A : Type} (l : list A) : Z := Z.of_nat (length l).

(** [bytearray(n)] and [b'\x00' * n]: [n] zero bytes. *)
Definition zeros (n : Z) : bytes := repeat x00 (Z.to_nat n).

(** [b[lo:hi]] for [0 <= lo], [0 <= hi]. *)
Definition slice (lo hi : Z) (b : bytes) : bytes :=
  firstn (Z.to_nat hi - Z.to_nat lo) (skipn (Z.to_nat lo) b).

(** [b[lo:hi] = v] on a bytearray, for [0 <= lo], [0 <= hi]: the slice is
    replaced by [v] (Python clamps the bounds to the length). *)
Definition set_slice (lo hi : Z) (v : bytes) (b : bytes) : bytes :=
  firstn (Z.to_nat lo) b ++ v ++ skipn (Nat.max (Z.to_nat lo) (Z.to_nat hi)) b.

(** [b'SEGB'] *)
Definition SEGB : bytes := ["S"; "E"; "G"; "B"]%byte.

(* ================================================================== *)
(** * struct.pack, little-endian formats *)

(** The [n] low-order bytes of [v], least significant first. *)
Fixpoint le_bytes (n : nat) (v : Z) : bytes :=
  match n with
  | O => []
  | S k => byte_of_Z v :: le_bytes k (Z.shiftr v 8)
  end.

(** The unsigned value of a little-endian byte string. *)
Fixpoint le_value (b : bytes) : Z :=
  match b with
  | [] => 0
  | x :: r => Z_of_byte x + 256 * le_value r
  end.

(** [struct.pack('<I', v)]: struct.error outside [0, 2^32). *)
Definition pack_I (v : Z) : result bytes :=
  if (0 <=? v) && (v <? 2 ^ 32) then Ok (le_bytes 4 v) else Raise StructError.

(** [struct.pack('<i', v)]: struct.error outside [-2^31, 2^31). *)
Definition pack_i (v : Z) : result bytes :=
  if (- 2 ^ 31 <=? v) && (v <? 2 ^ 31) then Ok (le_bytes 4 v) else Raise StructError.

(** A Python float, given by its IEEE 754 binary64 bit pattern. *)
Inductive float64 : Set := F64 (bits : Z).

Definition float_bits (f : float64) : Z := let (b) := f in b.

(** [struct.pack('<d', f)] *)
Definition pack_d (f : float64) : bytes := le_bytes 8 (float_bits f).

(* ================================================================== *)
(** * int / int: true division, correctly rounded to binary64 *)

(** Round [a / d] (with [0 < a], [0 < d]) to a 53-bit significand [q] and an
    exponent [e], value [q * 2^e], ties to even; [e] is not below the
    subnormal exponent -1074. *)
Definition round_quotient (a d : Z) : Z * Z :=
  let e0 := Z.log2 a - Z.log2 d - 52 in
  let scaled (e : Z) := if 0 <=? e then (a, d * 2 ^ e) else (a * 2 ^ (- e), d) in
  let e1 := let (n, m) := scaled e0 in if n / m <? 2 ^ 52 then e0 - 1 else e0 in
  let e := Z.max e1 (-1074) in
  let (n, m) := scaled e in
  let q := n / m in
  let r := n mod m in
  let q' := if (m <? 2 * r) || ((m =? 2 * r) && Z.odd q) then q + 1 else q in
  if q' =? 2 ^ 53 then (2 ^ 52, e + 1) else (q', e).

(** [n / d] on Python ints. *)
Definition int_truediv (n d : Z) : result float64 :=
  if d =? 0 then Raise ZeroDivisionError
  else if n =? 0 then Ok (F64 0)
  else
    let sign := if (n <? 0) then negb (d <? 0) else (d <? 0) in
    let (q, e) := round_quotient (Z.abs n) (Z.abs d) in
    let s := if sign then 2 ^ 63 else 0 in
    if q <? 2 ^ 52 then Ok (F64 (s + q))
    else
      let biased := e + 1075 in
      if 2047 <=? biased then Raise OverflowError
      else Ok (F64 (s + biased * 2 ^ 52 + (q - 2 ^ 52))).

(* ================================================================== *)
(** * binascii.crc32 *)

Definition crc32_shift (c : Z) : Z :=
  if Z.odd c then Z.lxor (Z.shiftr c 1) 0xEDB88320 else Z.shiftr c 1.

Definition crc32_update (c : Z) (b : byte) : Z :=
  Nat.iter 8 crc32_shift (Z.lxor c (Z_of_byte b)).

Definition binascii_crc32 (data : bytes) : Z :=
  Z.lxor (fold_left crc32_update data 0xFFFFFFFF) 0xFFFFFFFF.

(* ================================================================== *)
(** * str and str.encode('utf-8') *)

(** A Python str: its sequence of code points. *)
Definition str := list Z.

Definition utf8_char (c : Z) : result bytes :=
  if (c <? 0) || (0x10FFFF <? c) then Raise UnicodeEncodeError
  else if c <? 0x80 then Ok [byte_of_Z c]
  else if c <? 0x800 then
    Ok [byte_of_Z (Z.lor 0xC0 (Z.shiftr c 6));
        byte_of_Z (Z.lor 0x80 (Z.land c 0x3F))]
  else if c <? 0x10000 then
    if (0xD800 <=? c) && (c <=? 0xDFFF) then Raise UnicodeEncodeError
    else
      Ok [byte_of_Z (Z.lor 0xE0 (Z.shiftr c 12));
          byte_of_Z (Z.lor 0x80 (Z.land (Z.shiftr c 6) 0x3F));
          byte_of_Z (Z.lor 0x80 (Z.land c 0x3F))]
  else
    Ok [byte_of_Z (Z.lor 0xF0 (Z.shiftr c 18));
        byte_of_Z (Z.lor 0x80 (Z.land (Z.shiftr c 12) 0x3F));
        byte_of_Z (Z.lor 0x80 (Z.land (Z.shiftr c 6) 0x3F));
        byte_of_Z (Z.lor 0x80 (Z.land c 0x3F))].

(** [text.encode('utf-8')]: a lone surrogate raises UnicodeEncodeError. *)
Fixpoint encode_utf8 (text : str) : result bytes :=
  match text with
  | [] => Ok []
  | c :: rest =>
      b <- utf8_char c ;;
      bs <- encode_utf8 rest ;;
      Ok (b ++ bs)
  end.

(** An ASCII literal of the script as a str. *)
Definition str_of_bytes (b : bytes) : str := map Z_of_byte b.

(* ================================================================== *)
(** * datetime *)

(** A timedelta, normalised as Python keeps it:
    [0 <= seconds < 86400], [0 <= microseconds < 10^6]. *)
Record timedelta : Set := mk_timedelta {
  days : Z;
  seconds : Z;
  microseconds : Z
}.

(** Normalisation and range check done by every timedelta constructor. *)
Definition new_delta (d s us : Z) : result timedelta :=
  let s1 := s + us / 1000000 in
  let d1 := d + s1 / 86400 in
  if (-999999999 <=? d1) && (d1 <=? 999999999)
  then Ok (mk_timedelta d1 (s1 mod 86400) (us mod 1000000))
  else Raise OverflowError.

Definition delta_sub (a b : timedelta) : result timedelta :=
  new_delta (days a - days b) (seconds a - seconds b)
            (microseconds a - microseconds b).

(** [timedelta.total_seconds()] *)
Definition total_seconds (t : timedelta) : result float64 :=
  int_truediv ((days t * 86400 + seconds t) * 10 ^ 6 + microseconds t) (10 ^ 6).

(** A datetime; [tzinfo] is the UTC offset of an aware datetime, [None] for a
    naive one. *)
Record datetime : Set := mk_datetime {
  year : Z;
  month : Z;
  day : Z;
  hour : Z;
  minute : Z;
  second : Z;
  microsecond : Z;
  tzinfo : option timedelta
}.

(** [datetime.timezone.utc] *)
Definition utc : timedelta := mk_timedelta 0 0 0.

Definition is_leap (y : Z) : bool :=
  (y mod 4 =? 0) && (negb (y mod 100 =? 0) || (y mod 400 =? 0)).

Definition days_before_year (y : Z) : Z :=
  let p := y - 1 in p * 365 + p / 4 - p / 100 + p / 400.

Definition days_before_month (y m : Z) : Z :=
  nth (Z.to_nat m) [0; 0; 31; 59; 90; 120; 151; 181; 212; 243; 273; 304; 334] 0
  + (if (2 <? m) && is_leap y then 1 else 0).

Definition ymd_to_ord (y m d : Z) : Z :=
  days_before_year y + days_before_month y m + d.

(** [left - right] on datetimes. *)
Definition datetime_sub (left right : datetime) : result timedelta :=
  let delta_d := ymd_to_ord (year left) (month left) (day left)
                 - ymd_to_ord (year right) (month right) (day right) in
  let delta_s := (hour left - hour right) * 3600
                 + (minute left - minute right) * 60
                 + (second left - second right) in
  let delta_us := microsecond left - microsecond right in
  match tzinfo left, tzinfo right with
  | None, None => new_delta delta_d delta_s delta_us
  | Some offset1, Some offset2 =>
      offdiff <- delta_sub offset1 offset2 ;;
      r <- new_delta delta_d delta_s delta_us ;;
      delta_sub r offdiff
  | _, _ => Raise TypeError
  end.

(* ================================================================== *)
(** * The script *)

(** Base date for timestamps (2001-01-01 00:00:00 UTC) *)
Definition BASE_DATE : datetime := mk_datetime 2001 1 1 0 0 0 0 (Some utc).

(** Calculate the timestamp as seconds since the base date. *)
Definition get_timestamp (dt : datetime) : result float64 :=
  delta <- datetime_sub dt BASE_DATE ;;
  total_seconds delta.

(** One element of [entries_data]. *)
Record entry_data : Set := mk_entry_data {
  text : str;
  date : datetime
}.

Definition utc_date (y m d : Z) : datetime := mk_datetime y m d 0 0 0 0 (Some utc).

(** Entries data: lines from the poem with associated dates. *)
Definition entries_data : list entry_data :=
  [ mk_entry_data
      (str_of_bytes ["H";"e";"r";"e";"'";"s";" ";"t";"o";" ";"t";"h";"e";" ";
                     "c";"r";"a";"z";"y";" ";"o";"n";"e";"s";"."]%byte)
      (utc_date 2007 1 9);
    mk_entry_data
      (str_of_bytes ["T";"h";"e";" ";"m";"i";"s";"f";"i";"t";"s";"."]%byte)
      (utc_date 2007 6 29);
    mk_entry_data
      (str_of_bytes ["T";"h";"e";" ";"r";"e";"b";"e";"l";"s";"."]%byte)
      (utc_date 2011 10 5) ].

(** ** Version 1 *)

(** The header (56 bytes), file magic at offset 0x34. *)
Definition header_v1_init : bytes := set_slice 0x34 0x38 SEGB (zeros 0x38).

(** The body of the version 1 loop: the entry built for one [entry_data]. *)
Definition entry_v1 (e : entry_data) : result bytes :=
  timestamp <- get_timestamp (date e) ;;
  data_bytes <- encode_utf8 (text e) ;;
  let data_length := len data_bytes in
  let entry_header := zeros 0x20 in
  p <- pack_I data_length ;;
  let entry_header := set_slice 0x00 0x04 p entry_header in
  p <- pack_i 0x01 ;;
  let entry_header := set_slice 0x04 0x08 p entry_header in
  let entry_header := set_slice 0x08 0x10 (pack_d timestamp) entry_header in
  let entry_header := set_slice 0x10 0x18 (pack_d timestamp) entry_header in
  let crc32 := Z.land (binascii_crc32 data_bytes) 0xffffffff in
  p <- pack_I crc32 ;;
  let entry_header := set_slice 0x18 0x1C p entry_header in
  let entry_header := set_slice 0x1C 0x20 (zeros 4) entry_header in
  let entry := entry_header ++ data_bytes in
  let padding_needed := (8 - (len entry mod 8)) mod 8 in
  let entry := entry ++ zeros padding_needed in
  Ok entry.

(** The version 1 loop, with its two accumulators. *)
Fixpoint loop_v1 (es : list entry_data) (entries_v1 : list bytes)
    (current_offset_v1 : Z) : result (list bytes * Z) :=
  match es with
  | [] => Ok (entries_v1, current_offset_v1)
  | e :: rest =>
      entry <- entry_v1 e ;;
      loop_v1 rest (entries_v1 ++ [entry]) (current_offset_v1 + len entry)
  end.

(** The bytes written to segb_version1.bin. *)
Definition segb_version1 (es : list entry_data) : result bytes :=
  st <- loop_v1 es [] 0x38 ;;
  let (entries_v1, current_offset_v1) := st in
  p <- pack_I current_offset_v1 ;;
  let header_v1 := set_slice 0x00 0x04 p header_v1_init in
  Ok (header_v1 ++ concat entries_v1).

(** ** Version 2 *)

(** What the loop records for the trailer. *)
Record entry_info : Set := mk_entry_info {
  offset : Z;
  state : Z;
  timestamp : float64
}.

(** The header (32 bytes); [now] is what [datetime.now(tz=utc)] returned. *)
Definition header_v2 (now : datetime) (es : list entry_data) : result bytes :=
  let header := zeros 0x20 in
  let header := set_slice 0x00 0x04 SEGB header in
  let entry_count := len es in
  p <- pack_I entry_count ;;
  let header := set_slice 0x04 0x08 p header in
  creation_timestamp <- get_timestamp now ;;
  let header := set_slice 0x08 0x10 (pack_d creation_timestamp) header in
  let header := set_slice 0x10 0x20 (zeros 16) header in
  Ok header.

(** The body of the version 2 loop: the entry and its timestamp. *)
Definition entry_v2 (e : entry_data) : result (bytes * float64) :=
  timestamp <- get_timestamp (date e) ;;
  data_bytes <- encode_utf8 (text e) ;;
  let crc32 := Z.land (binascii_crc32 data_bytes) 0xffffffff in
  p <- pack_I crc32 ;;
  let entry := p ++ zeros 4 ++ data_bytes in
  let padding_needed := (4 - (len entry mod 4)) mod 4 in
  let entry := entry ++ zeros padding_needed in
  Ok (entry, timestamp).

(** The version 2 loop, with its three accumulators. *)
Fixpoint loop_v2 (es : list entry_data) (entries_v2 : list bytes)
    (entry_offsets_v2 : list entry_info) (current_offset_v2 : Z)
    : result (list bytes * list entry_info) :=
  match es with
  | [] => Ok (entries_v2, entry_offsets_v2)
  | e :: rest =>
      et <- entry_v2 e ;;
      let (entry, timestamp) := et in
      loop_v2 rest (entries_v2 ++ [entry])
        (entry_offsets_v2 ++ [mk_entry_info current_offset_v2 0x01 timestamp])
        (current_offset_v2 + len entry)
  end.

(** The trailer loop. *)
Fixpoint trailer_v2_loop (infos : list entry_info) (trailer_v2 : bytes)
    : result bytes :=
  match infos with
  | [] => Ok trailer_v2
  | entry_info :: rest =>
      p <- pack_I (offset entry_info) ;;
      let trailer_v2 := trailer_v2 ++ p in
      p <- pack_i (state entry_info) ;;
      let trailer_v2 := trailer_v2 ++ p in
      let trailer_v2 := trailer_v2 ++ pack_d (timestamp entry_info) in
      trailer_v2_loop rest trailer_v2
  end.

(** The bytes written to segb_version2.bin. *)
Definition segb_version2 (now : datetime) (es : list entry_data) : result bytes :=
  header <- header_v2 now es ;;
  st <- loop_v2 es [] [] 0 ;;
  let (entries_v2, entry_offsets_v2) := st in
  trailer_v2 <- trailer_v2_loop entry_offsets_v2 [] ;;
  Ok (header ++ concat entries_v2 ++ trailer_v2).

(** The two files a run of the script leaves behind, at clock reading [now];
    the first exception ends the run, and a file not written by then is
    [None]. *)
Definition script (now : datetime) (es : list entry_data)
    : option bytes * option bytes :=
  match segb_version1 es with
  | Raise _ => (None, None)
  | Ok v1 =>
      (Some v1,
       match segb_version2 now es with
       | Ok v2 => Some v2
       | Raise _ => None
       end)
  end.

(* ================================================================== *)
(** * Readers

    The repository holds the writer only.  The two readers follow the
    format description (sections 4.2, 4.3 and 7 of the specification). *)

(** Modelled from the spec: the structural errors of the readers, which the
    repository does not contain (section 7). *)
Inductive FormatError : Set :=
| BadMagic
| Truncated
| InconsistentTrailer.

(** Modelled from the spec: the result of a reader, records or one
    structural error. *)
Inductive decoded (A : Type) : Type :=
| Decoded (a : A)
| Failed (e : FormatError).
Arguments Decoded {A} a.
Arguments Failed {A} e.

(** Modelled from the spec: a record as a reader returns it (section 3);
    [rec_valid] is the checksum-verified flag. *)
Record record : Set := mk_record {
  rec_data : bytes;
  rec_state : Z;
  rec_timestamp_primary : float64;
  rec_timestamp_secondary : float64;
  rec_checksum : Z;
  rec_valid : bool
}.

(** Modelled from the spec: the decode counterparts of the little-endian
    encodings (section 4.1). *)
Definition decode_u32 (b : bytes) : Z := le_value b.

Definition decode_i32 (b : bytes) : Z :=
  let v := le_value b in if v <? 2 ^ 31 then v else v - 2 ^ 32.

Definition decode_f64 (b : bytes) : float64 := F64 (le_value b).

Definition bytes_eqb (a b : bytes) : bool :=
  if list_eq_dec byte_eq_dec a b then true else false.

(** Modelled from the spec: the entry loop of the version 1 reader, which the
    repository does not contain.  From the running offset [off]: stop at
    [end_offset]; otherwise read a 32-byte entry header, then [length] data
    bytes, flag the record with the checksum comparison, and advance to the
    next multiple of 8.  [Truncated] when an entry header or its data do not
    fit.  [fuel] bounds the number of entries read. *)
Fixpoint decode_entries_v1 (fuel : nat) (b : bytes) (end_offset off : Z)
    : decoded (list record) :=
  if end_offset <=? off then Decoded []
  else
    match fuel with
    | O => Failed Truncated
    | S fuel' =>
        if len b <? off + 0x20 then Failed Truncated
        else
          let length := decode_u32 (slice off (off + 0x04) b) in
          let st := decode_i32 (slice (off + 0x04) (off + 0x08) b) in
          let ts1 := decode_f64 (slice (off + 0x08) (off + 0x10) b) in
          let ts2 := decode_f64 (slice (off + 0x10) (off + 0x18) b) in
          let checksum := decode_u32 (slice (off + 0x18) (off + 0x1C) b) in
          let stop := off + 0x20 + length in
          if len b <? stop then Failed Truncated
          else
            let data := slice (off + 0x20) stop b in
            let valid := binascii_crc32 data =? checksum in
            let next := stop + (8 - stop mod 8) mod 8 in
            match decode_entries_v1 fuel' b end_offset next with
            | Decoded rs =>
                Decoded (mk_record data st ts1 ts2 checksum valid :: rs)
            | Failed e => Failed e
            end
    end.

(** Modelled from the spec: the version 1 reader, which the repository does
    not contain.  It checks the length (at least 56 bytes) and the magic at
    0x34, reads [end_offset] from the first four bytes and reads entries from
    offset 0x38. *)
Definition decode_v1 (b : bytes) : decoded (list record) :=
  if (len b <? 0x38) || negb (bytes_eqb (slice 0x34 0x38 b) SEGB)
  then Failed BadMagic
  else
    let end_offset := decode_u32 (slice 0x00 0x04 b) in
    decode_entries_v1 (length b) b end_offset 0x38.

(** Modelled from the spec: the trailer of a version 2 container, [count]
    records of 16 bytes (offset, state, timestamp). *)
Fixpoint parse_trailer (count : nat) (t : bytes) : list entry_info :=
  match count with
  | O => []
  | S k =>
      mk_entry_info (decode_u32 (slice 0 4 t)) (decode_i32 (slice 4 8 t))
                    (decode_f64 (slice 8 16 t))
      :: parse_trailer k (skipn 16 t)
  end.

(** Modelled from the spec: dropping up to [n] zero bytes from the front of
    a list, for [strip_padding] below. *)
Fixpoint drop_zeros (n : nat) (l : bytes) : bytes :=
  match n, l with
  | S k, x00 :: r => drop_zeros k r
  | _, _ => l
  end.

(** Modelled from the spec: "minus ... any trailing padding".  The format
    stores no length: the zero bytes at the end of an entry, at most 3 since
    entries are padded to a multiple of 4, are taken to be its padding. *)
Definition strip_padding (raw : bytes) : bytes :=
  rev (drop_zeros 3 (rev raw)).

(** Modelled from the spec: the entries of a version 2 container, located in
    the data region by the trailer records.  An entry runs to the next
    record's offset, or to the end of the region for the last one. *)
Fixpoint decode_entries_v2 (region : bytes) (infos : list entry_info)
    : decoded (list record) :=
  match infos with
  | [] => Decoded []
  | i :: rest =>
      let next := match rest with
                  | [] => len region
                  | j :: _ => offset j
                  end in
      if (next <? offset i + 8) || (len region <? next)
      then Failed InconsistentTrailer
      else
        let checksum := decode_u32 (slice (offset i) (offset i + 4) region) in
        let data := strip_padding (slice (offset i + 8) next region) in
        let valid := binascii_crc32 data =? checksum in
        match decode_entries_v2 region rest with
        | Decoded rs =>
            Decoded (mk_record data (state i) (timestamp i) (timestamp i)
                               checksum valid :: rs)
        | Failed e => Failed e
        end
  end.

(** Modelled from the spec: the version 2 reader, which the repository does
    not contain.  It checks the length (at least 32 bytes) and the magic,
    reads [entry_count], takes the last [entry_count * 16] bytes as the
    trailer and what lies between header and trailer as the data region. *)
Definition decode_v2 (b : bytes) : decoded (list record) :=
  if len b <? 0x20 then Failed Truncated
  else if negb (bytes_eqb (slice 0x00 0x04 b) SEGB) then Failed BadMagic
  else
    let entry_count := decode_u32 (slice 0x04 0x08 b) in
    if len b <? 0x20 + entry_count * 16 then Failed Truncated
    else
      let trailer_start := len b - entry_count * 16 in
      let region := slice 0x20 trailer_start b in
      let infos := parse_trailer (Z.to_nat entry_count)
                                 (skipn (Z.to_nat trailer_start) b) in
      decode_entries_v2 region infos.

(* ================================================================== *)
(** * Definitions used in the statements *)

(** The 32-byte entry header of version 1, field by field. *)
Definition entry_header_v1 (ts : float64) (data : bytes) : bytes :=
  le_bytes 4 (len data) ++ le_bytes 4 1 ++ pack_d ts ++ pack_d ts
  ++ le_bytes 4 (Z.land (binascii_crc32 data) 0xffffffff) ++ zeros 4.

(** The unpadded entry of version 2: checksum, four zero bytes, data. *)
Definition entry_body_v2 (data : bytes) : bytes :=
  le_bytes 4 (Z.land (binascii_crc32 data) 0xffffffff) ++ zeros 4 ++ data.

(** Apply a step that can raise to every element, in order. *)
Fixpoint mapM {A B : Type} (f : A -> result B) (l : list A) : result (list B) :=
  match l with
  | [] => Ok []
  | x :: r => y <- f x ;; ys <- mapM f r ;; Ok (y :: ys)
  end.

(** The version 1 header once [end_offset] is set. *)
Definition header_v1 (end_offset : Z) : bytes :=
  le_bytes 4 end_offset ++ zeros 0x30 ++ SEGB.

(** What the version 2 loop records for the entries [ets], the first of them
    at offset [off]. *)
Fixpoint infos_from (off : Z) (ets : list (bytes * float64)) : list entry_info :=
  match ets with
  | [] => []
  | et :: r => mk_entry_info off 0x01 (snd et) :: infos_from (off + len (fst et)) r
  end.

(** The 16 bytes the trailer loop appends for one record. *)
Definition trailer_record (i : entry_info) : bytes :=
  le_bytes 4 (offset i) ++ le_bytes 4 (state i) ++ pack_d (timestamp i).

(** The version 2 header, field by field. *)
Definition header_v2_bytes (entry_count : Z) (creation_timestamp : float64) : bytes :=
  SEGB ++ le_bytes 4 entry_count ++ pack_d creation_timestamp ++ zeros 16.

Definition packable (i : entry_info) : Prop :=
  0 <= offset i < 2 ^ 32 /\ - 2 ^ 31 <= state i < 2 ^ 31.

(** The sum of the sizes of the first [i] entries. *)
Definition offset_of (i : nat) (entries : list bytes) : Z :=
  len (concat (firstn i entries)).

Inductive version : Set := V1 | V2.

(** The container written for a version. *)
Definition encode (v : version) (now : datetime) (es : list entry_data)
    : result bytes :=
  match v with
  | V1 => segb_version1 es
  | V2 => segb_version2 now es
  end.

(** The entry a loop body appends for [e]. *)
Definition entry_of (v : version) (e : entry_data) : result bytes :=
  match v with
  | V1 => entry_v1 e
  | V2 => et <- entry_v2 e ;; Ok (fst et)
  end.

(** [data_bytes = text.encode('utf-8')] *)
Definition data_bytes (e : entry_data) : result bytes := encode_utf8 (text e).

Definition header_size (v : version) : Z :=
  match v with V1 => 0x38 | V2 => 0x20 end.

Definition alignment (v : version) : Z :=
  match v with V1 => 8 | V2 => 4 end.

(** Where the checksum and the data start inside an entry. *)
Definition checksum_pos (v : version) : Z :=
  match v with V1 => 0x18 | V2 => 0x00 end.

Definition data_pos (v : version) : Z :=
  match v with V1 => 0x20 | V2 => 0x08 end.

(** An entry before padding. *)
Definition unpadded (v : version) (ts : float64) (data : bytes) : bytes :=
  match v with
  | V1 => entry_header_v1 ts data ++ data
  | V2 => entry_body_v2 data
  end.

(** A timedelta in microseconds. *)
Definition delta_us (t : timedelta) : Z :=
  (days t * 86400 + seconds t) * 10 ^ 6 + microseconds t.

(** The wall-clock fields of a datetime in microseconds, counted from the
    start of day 0 of the proleptic Gregorian calendar. *)
Definition wall_us (dt : datetime) : Z :=
  ((ymd_to_ord (year dt) (month dt) (day dt) * 86400
    + hour dt * 3600 + minute dt * 60 + second dt) * 10 ^ 6
   + microsecond dt).

(** Microseconds elapsed from 2001-01-01T00:00:00 UTC to the instant of a
    datetime whose UTC offset is [off]. *)
Definition elapsed_us (dt : datetime) (off : timedelta) : Z :=
  (wall_us dt - delta_us off) - wall_us BASE_DATE.

(** The sum of the sizes of a list of entries. *)
Definition sum_sizes (entries : list bytes) : Z :=
  fold_right (fun entry s => len entry + s) 0 entries.

(** The sample container of version 1. *)
Definition sample_v1 : bytes :=
  Eval vm_compute in match segb_version1 entries_data with Ok b => b | Raise _ => [] end.

(** A clock reading for the sample container of version 2. *)
Definition sample_now : datetime := mk_datetime 2024 10 1 12 30 15 123456 (Some utc).

Definition sample_v2 : bytes :=
  Eval vm_compute in
    match segb_version2 sample_now entries_data with Ok b => b | Raise _ => [] end.

(** The second of the entries. *)
Definition sample_entry : entry_data :=
  mk_entry_data
    (str_of_bytes ["T";"h";"e";" ";"m";"i";"s";"f";"i";"t";"s";"."]%byte)
    (utc_date 2007 6 29).

(** The first of the entries. *)
Definition sample_first : entry_data :=
  mk_entry_data
    (str_of_bytes ["H";"e";"r";"e";"'";"s";" ";"t";"o";" ";"t";"h";"e";" ";
                   "c";"r";"a";"z";"y";" ";"o";"n";"e";"s";"."]%byte)
    (utc_date 2007 1 9).

Definition sample_entry_v1 : bytes :=
  Eval vm_compute in
    match entry_of V1 sample_entry with Ok b => b | Raise _ => [] end.

(** A second clock reading, one day after [sample_now]. *)
Definition sample_later : datetime := mk_datetime 2024 10 2 12 30 15 123456 (Some utc).

Definition sample_v2_later : bytes :=
  Eval vm_compute in
    match segb_version2 sample_later entries_data with Ok b => b | Raise _ => [] end.

(** The entry of version 1 for a timestamp and data bytes. *)
Definition padded_v1 (it : float64 * bytes) : bytes :=
  (entry_header_v1 (fst it) (snd it) ++ snd it)
  ++ zeros ((8 - len (entry_header_v1 (fst it) (snd it) ++ snd it) mod 8) mod 8).

(** The entry of version 2 for data bytes. *)
Definition padded_v2 (data : bytes) : bytes :=
  entry_body_v2 data ++ zeros ((4 - len (entry_body_v2 data) mod 4) mod 4).

(** The offsets of consecutive entries, the first of them at [off]. *)
Fixpoint offsets_from (off : Z) (entries : list bytes) : list Z :=
  match entries with
  | [] => []
  | entry :: r => off :: offsets_from (off + len entry) r
  end.

(** Data that does not end in a zero byte (empty data included). *)
Definition no_trailing_zero (data : bytes) : Prop := last data x01 <> x00.

(** Modelled from the spec: the reader for a version. *)
Definition decode (v : version) (b : bytes) : decoded (list record) :=
  match v with
  | V1 => decode_v1 b
  | V2 => decode_v2 b
  end.

(** A record whose data ends in a zero byte: the text "wnnNRt\x00". *)
Definition zero_ended : entry_data :=
  mk_entry_data (str_of_bytes ["w";"n";"n";"N";"R";"t"]%byte ++ [0])
                (utc_date 2007 1 9).

(** The same text with one more zero: "wnnNRt\x00\x00". *)
Definition zero_ended_longer : entry_data :=
  mk_entry_data (str_of_bytes ["w";"n";"n";"N";"R";"t"]%byte ++ [0; 0])
                (utc_date 2007 1 9).

Definition zero_ended_data : bytes :=
  Eval vm_compute in
    match data_bytes zero_ended with Ok b => b | Raise _ => [] end.

Definition zero_ended_v2 : bytes :=
  Eval vm_compute in
    match segb_version2 sample_now [zero_ended] with Ok b => b | Raise _ => [] end.

Definition sample_datas : list bytes :=
  Eval vm_compute in
    match mapM data_bytes entries_data with Ok l => l | Raise _ => [] end.

(** A text that str.encode cannot encode: it holds a code point outside
    [0, 0x10FFFF] or a surrogate. *)
Definition bad_code_point (c : Z) : bool :=
  (c <? 0) || (0x10FFFF <? c) || ((0xD800 <=? c) && (c <=? 0xDFFF)).

(** An entry whose text holds a lone surrogate, U+D800. *)
Definition surrogate_entry : entry_data :=
  mk_entry_data [0x48; 0xD800] (utc_date 2007 1 9).

(** 2007-01-09 00:00 UTC as the wall clock of UTC+02:00 shows it. *)
Definition sample_date_plus2 : datetime :=
  mk_datetime 2007 1 9 2 0 0 0 (Some (mk_timedelta 0 7200 0)).

(** An entry with an accented text: "séance". *)
Definition accent_entry : entry_data :=
  mk_entry_data [0x73; 0xE9; 0x61; 0x6E; 0x63; 0x65] (utc_date 2007 1 9).


(** A naive datetime: 2007-01-09 00:00 without tzinfo. *)
Definition naive_date : datetime := mk_datetime 2007 1 9 0 0 0 0 None.

(** A date before the base date: 1970-01-01 00:00 UTC. *)
Definition unix_epoch : datetime := utc_date 1970 1 1.

(** The entries of the script with the first date written in UTC+02:00. *)
Definition entries_data_plus2 : list entry_data :=
  mk_entry_data (text sample_first) sample_date_plus2
  :: tl entries_data.

(* ================================================================== *)
(** * Bytes and little-endian values *)

Lemma Z_of_byte_range (b : byte) : 0 <= Z_of_byte b < 256.
Proof.
  unfold Z_of_byte. pose proof (Byte.to_N_bounded b). lia.
Qed.

Lemma Z_of_byte_of_Z (z : Z) : Z_of_byte (byte_of_Z z) = z mod 256.
Proof.
  unfold Z_of_byte, byte_of_Z.
  assert (Hr : 0 <= z mod 256 < 256) by (apply Z.mod_pos_bound; lia).
  destruct (Byte.of_N (Z.to_N (z mod 256))) as [b|] eqn:E.
  - apply Byte.to_of_N in E. rewrite E. lia.
  - apply Byte.of_N_None_iff in E. lia.
Qed.

Lemma length_le_bytes (n : nat) (v : Z) : length (le_bytes n v) = n.
Proof.
  revert v. induction n as [|n IH]; intros v; simpl; [reflexivity|].
  now rewrite IH.
Qed.

Lemma le_value_le_bytes (n : nat) (v : Z) :
  le_value (le_bytes n v) = v mod 2 ^ (8 * Z.of_nat n).
Proof.
  revert v. induction n as [|n IH]; intros v.
  - simpl. now rewrite Z.mod_1_r.
  - cbn [le_bytes le_value]. rewrite IH, Z_of_byte_of_Z, Z.shiftr_div_pow2 by lia.
    replace (8 * Z.of_nat (S n)) with (8 + 8 * Z.of_nat n) by lia.
    rewrite Z.pow_add_r by lia.
    change (2 ^ 8) with 256.
    rewrite Z.rem_mul_r by lia. reflexivity.
Qed.

Lemma pack_I_inv (v : Z) (b : bytes) :
  pack_I v = Ok b -> 0 <= v < 2 ^ 32 /\ b = le_bytes 4 v.
Proof.
  unfold pack_I. destruct ((0 <=? v) && (v <? 2 ^ 32)) eqn:E; [|discriminate].
  intros [= <-]. apply andb_true_iff in E. split; [lia | reflexivity].
Qed.

Lemma pack_I_ok (v : Z) : 0 <= v < 2 ^ 32 -> pack_I v = Ok (le_bytes 4 v).
Proof.
  intros H. unfold pack_I.
  replace ((0 <=? v) && (v <? 2 ^ 32)) with true; [reflexivity|].
  symmetry. apply andb_true_iff. lia.
Qed.

Lemma decode_u32_le_bytes (v : Z) :
  0 <= v < 2 ^ 32 -> decode_u32 (le_bytes 4 v) = v.
Proof.
  intros H. unfold decode_u32. rewrite le_value_le_bytes.
  change (2 ^ (8 * Z.of_nat 4)) with (2 ^ 32). now apply Z.mod_small.
Qed.

Lemma decode_i32_le_bytes (v : Z) :
  - 2 ^ 31 <= v < 2 ^ 31 -> decode_i32 (le_bytes 4 v) = v.
Proof.
  intros H. unfold decode_i32. rewrite le_value_le_bytes.
  change (2 ^ (8 * Z.of_nat 4)) with (2 ^ 32).
  destruct (Z.ltb_spec (v mod 2 ^ 32) (2 ^ 31)) as [L|L].
  - destruct (Z.lt_ge_cases v 0) as [N|N].
    + rewrite <- (Z.mod_add v 1 (2 ^ 32)) in L by lia.
      rewrite Z.mod_small in L by lia. lia.
    + rewrite Z.mod_small by lia. reflexivity.
  - destruct (Z.lt_ge_cases v 0) as [N|N].
    + rewrite <- (Z.mod_add v 1 (2 ^ 32)) by lia.
      rewrite Z.mod_small by lia. lia.
    + rewrite Z.mod_small in L by lia. lia.
Qed.

(* ================================================================== *)
(** * Lengths and slices *)

Lemma len_nonneg {A : Type} (l : list A) : 0 <= len l.
Proof. unfold len. lia. Qed.

Lemma len_app {A : Type} (x y : list A) : len (x ++ y) = len x + len y.
Proof. unfold len. rewrite length_app. lia. Qed.

Lemma len_zeros (n : Z) : 0 <= n -> len (zeros n) = n.
Proof. intros H. unfold len, zeros. rewrite repeat_length. lia. Qed.

Lemma len_le_bytes (n : nat) (v : Z) : len (le_bytes n v) = Z.of_nat n.
Proof. unfold len. now rewrite length_le_bytes. Qed.

Lemma len_pack_d (f : float64) : len (pack_d f) = 8.
Proof. unfold pack_d. now rewrite len_le_bytes. Qed.

Lemma slice_app_l (lo hi : Z) (x y : bytes) :
  hi <= len x -> slice lo hi (x ++ y) = slice lo hi x.
Proof.
  unfold slice, len. intros H.
  destruct (Z.le_gt_cases lo hi) as [L|L].
  - destruct (Z.le_gt_cases 0 lo) as [P|P].
    + rewrite skipn_app, firstn_app, length_skipn.
      replace (Z.to_nat hi - Z.to_nat lo - (length x - Z.to_nat lo))%nat with 0%nat by lia.
      replace (Z.to_nat lo - length x)%nat with 0%nat by lia.
      simpl. now rewrite app_nil_r.
    + replace (Z.to_nat lo) with 0%nat by lia. simpl.
      rewrite firstn_app.
      replace (Z.to_nat hi - 0 - length x)%nat with 0%nat by lia.
      simpl. now rewrite app_nil_r.
  - replace (Z.to_nat hi - Z.to_nat lo)%nat with 0%nat by lia. reflexivity.
Qed.

Lemma slice_app_r (lo hi : Z) (x y : bytes) :
  0 <= lo -> slice (len x + lo) (len x + hi) (x ++ y) = slice lo hi y.
Proof.
  unfold slice, len. intros H.
  rewrite skipn_app.
  replace (Z.to_nat (Z.of_nat (length x) + lo) - length x)%nat with (Z.to_nat lo) by lia.
  rewrite skipn_all2 by lia. simpl.
  f_equal. lia.
Qed.

Lemma slice_prefix (x y : bytes) : slice 0 (len x) (x ++ y) = x.
Proof.
  unfold slice, len. simpl. rewrite Nat2Z.id, Nat.sub_0_r.
  rewrite firstn_app, Nat.sub_diag, firstn_all. simpl. now rewrite app_nil_r.
Qed.

Lemma slice_all (x : bytes) : slice 0 (len x) x = x.
Proof. rewrite <- (app_nil_r x) at 2. apply slice_prefix. Qed.

Lemma skipn_len_app (x y : bytes) : skipn (Z.to_nat (len x)) (x ++ y) = y.
Proof.
  unfold len. rewrite Nat2Z.id, skipn_app, Nat.sub_diag, skipn_all. reflexivity.
Qed.

(* ================================================================== *)
(** * The shape of what the writer builds *)

Ltac bind_inv H :=
  match type of H with
  | bind ?m _ = Ok _ =>
      let E := fresh "E" in
      destruct m eqn:E; cbn [bind] in H; [|discriminate H]
  end.

Lemma Ok_inj {A : Type} (x y : A) : Ok x = Ok y -> x = y.
Proof. now intros [= ->]. Qed.

Ltac explode l H :=
  repeat (destruct l as [|? l]; simpl in H; try discriminate H).

Lemma crc32_masked_range (data : bytes) :
  0 <= Z.land (binascii_crc32 data) 0xffffffff < 2 ^ 32.
Proof.
  change 0xffffffff with (Z.ones 32). rewrite Z.land_ones by lia.
  apply Z.mod_pos_bound. lia.
Qed.

(** The six slice assignments that fill the version 1 entry header. *)
Lemma entry_header_fill (a b c d f : bytes) :
  length a = 4%nat -> length b = 4%nat -> length c = 8%nat ->
  length d = 8%nat -> length f = 4%nat ->
  set_slice 0x1C 0x20 (zeros 4)
    (set_slice 0x18 0x1C f
      (set_slice 0x10 0x18 d
        (set_slice 0x08 0x10 c
          (set_slice 0x04 0x08 b
            (set_slice 0x00 0x04 a (zeros 0x20))))))
  = a ++ b ++ c ++ d ++ f ++ zeros 4.
Proof.
  intros Ha Hb Hc Hd Hf.
  explode a Ha. explode b Hb. explode c Hc. explode d Hd. explode f Hf.
  reflexivity.
Qed.

(** The four slice assignments that fill the version 2 header. *)
Lemma header_v2_fill (a b : bytes) :
  length a = 4%nat -> length b = 8%nat ->
  set_slice 0x10 0x20 (zeros 16)
    (set_slice 0x08 0x10 b
      (set_slice 0x04 0x08 a
        (set_slice 0x00 0x04 SEGB (zeros 0x20))))
  = SEGB ++ a ++ b ++ zeros 16.
Proof.
  intros Ha Hb. explode a Ha. explode b Hb. reflexivity.
Qed.

(** The two slice assignments on the version 1 header. *)
Lemma header_v1_fill (a : bytes) :
  length a = 4%nat ->
  set_slice 0x00 0x04 a header_v1_init = a ++ zeros 0x30 ++ SEGB.
Proof.
  intros Ha. explode a Ha. reflexivity.
Qed.

Lemma len_entry_header_v1 (ts : float64) (data : bytes) :
  len (entry_header_v1 ts data) = 0x20.
Proof.
  unfold entry_header_v1, pack_d.
  rewrite !len_app, !len_le_bytes, len_zeros by lia. reflexivity.
Qed.

Lemma entry_v1_ok (e : entry_data) (ts : float64) (data : bytes) :
  get_timestamp (date e) = Ok ts ->
  encode_utf8 (text e) = Ok data ->
  len data < 2 ^ 32 ->
  entry_v1 e = Ok ((entry_header_v1 ts data ++ data)
            ++ zeros ((8 - len (entry_header_v1 ts data ++ data) mod 8) mod 8)).
Proof.
  intros Hts Hd Hl. unfold entry_v1. rewrite Hts, Hd. cbn [bind].
  rewrite pack_I_ok by (pose proof (len_nonneg data); lia). cbn [bind].
  change (pack_i 1) with (Ok (le_bytes 4 1)). cbn [bind].
  rewrite pack_I_ok by apply crc32_masked_range. cbn [bind].
  rewrite entry_header_fill by (unfold pack_d; apply length_le_bytes).
  reflexivity.
Qed.

Lemma entry_v1_inv (e : entry_data) (entry : bytes) :
  entry_v1 e = Ok entry ->
  exists ts data,
    get_timestamp (date e) = Ok ts /\
    encode_utf8 (text e) = Ok data /\
    0 <= len data < 2 ^ 32 /\
    entry = (entry_header_v1 ts data ++ data)
            ++ zeros ((8 - len (entry_header_v1 ts data ++ data) mod 8) mod 8).
Proof.
  intros H. assert (H' := H). unfold entry_v1 in H'.
  destruct (get_timestamp (date e)) as [ts|] eqn:Ets; [|discriminate H'].
  destruct (encode_utf8 (text e)) as [data|] eqn:Ed; [|discriminate H'].
  cbn [bind] in H'.
  destruct (pack_I (len data)) as [p|] eqn:Ep; [|discriminate H'].
  apply pack_I_inv in Ep as [R _].
  rewrite (entry_v1_ok e ts data Ets Ed) in H by lia.
  apply Ok_inj in H. subst entry.
  exists ts, data. repeat split; try reflexivity; lia.
Qed.

Lemma len_entry_body_v2 (data : bytes) : len (entry_body_v2 data) = 8 + len data.
Proof.
  unfold entry_body_v2. rewrite !len_app, len_le_bytes, len_zeros by lia. lia.
Qed.

Lemma entry_v2_ok (e : entry_data) (ts : float64) (data : bytes) :
  get_timestamp (date e) = Ok ts ->
  encode_utf8 (text e) = Ok data ->
  entry_v2 e = Ok (entry_body_v2 data
                   ++ zeros ((4 - len (entry_body_v2 data) mod 4) mod 4), ts).
Proof.
  intros Hts Hd. unfold entry_v2. rewrite Hts, Hd. cbn [bind].
  rewrite pack_I_ok by apply crc32_masked_range. reflexivity.
Qed.

Lemma entry_v2_inv (e : entry_data) (entry : bytes) (ts : float64) :
  entry_v2 e = Ok (entry, ts) ->
  exists data,
    get_timestamp (date e) = Ok ts /\
    encode_utf8 (text e) = Ok data /\
    entry = entry_body_v2 data
            ++ zeros ((4 - len (entry_body_v2 data) mod 4) mod 4).
Proof.
  intros H. assert (H' := H). unfold entry_v2 in H'.
  destruct (get_timestamp (date e)) as [ts'|] eqn:Ets; [|discriminate H'].
  destruct (encode_utf8 (text e)) as [data|] eqn:Ed; [|discriminate H'].
  rewrite (entry_v2_ok e ts' data Ets Ed) in H.
  apply Ok_inj in H. apply pair_equal_spec in H as [<- <-].
  exists data. repeat split; reflexivity.
Qed.

(* ================================================================== *)
(** * The loops *)

Lemma mapM_length {A B : Type} (f : A -> result B) (l : list A) (l' : list B) :
  mapM f l = Ok l' -> length l' = length l.
Proof.
  revert l'. induction l as [|x r IH]; intros l' H; cbn [mapM] in H.
  - apply Ok_inj in H. now subst.
  - bind_inv H. bind_inv H. apply Ok_inj in H. subst l'. simpl.
    f_equal. now apply IH.
Qed.

Lemma mapM_nth {A B : Type} (f : A -> result B) (l : list A) (l' : list B)
    (i : nat) (x : A) :
  mapM f l = Ok l' -> nth_error l i = Some x ->
  exists y, nth_error l' i = Some y /\ f x = Ok y.
Proof.
  revert l' i. induction l as [|x0 r IH]; intros l' i H Hi.
  - destruct i; discriminate Hi.
  - cbn [mapM] in H. bind_inv H. bind_inv H. apply Ok_inj in H. subst l'.
    destruct i as [|i]; cbn [nth_error] in *.
    + injection Hi as <-. eauto.
    + eapply IH; eauto.
Qed.

Lemma loop_v1_inv (es : list entry_data) (acc : list bytes) (off : Z)
    (entries : list bytes) (off' : Z) :
  loop_v1 es acc off = Ok (entries, off') ->
  exists new,
    mapM entry_v1 es = Ok new /\
    entries = acc ++ new /\
    off' = off + len (concat new).
Proof.
  revert acc off. induction es as [|e r IH]; intros acc off H; cbn [loop_v1] in H.
  - apply Ok_inj in H. injection H as <- <-. exists []. simpl.
    rewrite app_nil_r. repeat split; try reflexivity. unfold len. simpl. lia.
  - bind_inv H. apply IH in H as (new & Hm & -> & ->).
    exists (a :: new). cbn [mapM]. rewrite E, Hm. cbn [bind].
    rewrite <- app_assoc. repeat split; try reflexivity.
    cbn [concat]. rewrite len_app. lia.
Qed.

Lemma loop_v1_ok (es : list entry_data) (acc : list bytes) (off : Z)
    (new : list bytes) :
  mapM entry_v1 es = Ok new ->
  loop_v1 es acc off = Ok (acc ++ new, off + len (concat new)).
Proof.
  revert acc off new. induction es as [|e r IH]; intros acc off new H;
    cbn [mapM] in H.
  - apply Ok_inj in H. subst new. cbn [loop_v1]. rewrite app_nil_r.
    unfold len. simpl. now rewrite Z.add_0_r.
  - bind_inv H. bind_inv H. apply Ok_inj in H. subst new.
    cbn [loop_v1]. rewrite E. cbn [bind]. rewrite (IH _ _ _ eq_refl).
    rewrite <- app_assoc. cbn [concat]. rewrite len_app.
    do 2 f_equal. lia.
Qed.

Lemma len_header_v1 (end_offset : Z) : len (header_v1 end_offset) = 0x38.
Proof.
  unfold header_v1. rewrite !len_app, len_le_bytes, len_zeros by lia.
  reflexivity.
Qed.

Lemma segb_version1_inv (es : list entry_data) (out : bytes) :
  segb_version1 es = Ok out ->
  exists entries,
    mapM entry_v1 es = Ok entries /\
    0 <= 0x38 + len (concat entries) < 2 ^ 32 /\
    out = header_v1 (0x38 + len (concat entries)) ++ concat entries.
Proof.
  unfold segb_version1. intros H. bind_inv H. destruct a as [entries off].
  apply loop_v1_inv in E as (new & Hm & -> & ->).
  bind_inv H. apply pack_I_inv in E as [R ->]. apply Ok_inj in H. subst out.
  exists new. cbn [app]. split; [assumption|]. split; [lia|].
  now rewrite header_v1_fill by apply length_le_bytes.
Qed.

Lemma segb_version1_ok (es : list entry_data) (entries : list bytes) :
  mapM entry_v1 es = Ok entries ->
  0x38 + len (concat entries) < 2 ^ 32 ->
  segb_version1 es = Ok (header_v1 (0x38 + len (concat entries)) ++ concat entries).
Proof.
  intros Hm Hr. unfold segb_version1. rewrite (loop_v1_ok _ _ _ _ Hm). cbn [bind app].
  rewrite pack_I_ok by (pose proof (len_nonneg (concat entries)); lia).
  cbn [bind]. now rewrite header_v1_fill by apply length_le_bytes.
Qed.

Lemma len_trailer_record (i : entry_info) : len (trailer_record i) = 16.
Proof.
  unfold trailer_record. now rewrite !len_app, !len_le_bytes, len_pack_d.
Qed.

Lemma len_header_v2_bytes (n : Z) (ts : float64) : len (header_v2_bytes n ts) = 0x20.
Proof.
  unfold header_v2_bytes.
  rewrite !len_app, len_le_bytes, len_pack_d, len_zeros by lia. reflexivity.
Qed.

Lemma infos_from_length (off : Z) (ets : list (bytes * float64)) :
  length (infos_from off ets) = length ets.
Proof.
  revert off. induction ets as [|et r IH]; intros off; simpl; [reflexivity|].
  now rewrite IH.
Qed.

Lemma loop_v2_inv (es : list entry_data) (accE : list bytes)
    (accI : list entry_info) (off : Z) (entries : list bytes)
    (infos : list entry_info) :
  loop_v2 es accE accI off = Ok (entries, infos) ->
  exists ets,
    mapM entry_v2 es = Ok ets /\
    entries = accE ++ map fst ets /\
    infos = accI ++ infos_from off ets.
Proof.
  revert accE accI off. induction es as [|e r IH]; intros accE accI off H;
    cbn [loop_v2] in H.
  - apply Ok_inj in H. injection H as <- <-. exists []. simpl.
    now rewrite !app_nil_r.
  - bind_inv H. destruct a as [entry ts].
    apply IH in H as (ets & Hm & -> & ->).
    exists ((entry, ts) :: ets). cbn [mapM]. rewrite E, Hm. cbn [bind].
    rewrite <- !app_assoc. repeat split; reflexivity.
Qed.

Lemma loop_v2_ok (es : list entry_data) (accE : list bytes)
    (accI : list entry_info) (off : Z) (ets : list (bytes * float64)) :
  mapM entry_v2 es = Ok ets ->
  loop_v2 es accE accI off = Ok (accE ++ map fst ets, accI ++ infos_from off ets).
Proof.
  revert accE accI off ets. induction es as [|e r IH]; intros accE accI off ets H;
    cbn [mapM] in H.
  - apply Ok_inj in H. subst ets. cbn [loop_v2]. simpl. now rewrite !app_nil_r.
  - bind_inv H. bind_inv H. apply Ok_inj in H. subst ets. destruct a as [entry ts].
    cbn [loop_v2]. rewrite E. cbn [bind]. rewrite (IH _ _ _ _ eq_refl).
    rewrite <- !app_assoc. reflexivity.
Qed.

Lemma pack_i_inv (v : Z) (b : bytes) :
  pack_i v = Ok b -> - 2 ^ 31 <= v < 2 ^ 31 /\ b = le_bytes 4 v.
Proof.
  unfold pack_i. destruct ((- 2 ^ 31 <=? v) && (v <? 2 ^ 31)) eqn:E; [|discriminate].
  intros H. apply Ok_inj in H. subst b.
  apply andb_true_iff in E. split; [lia | reflexivity].
Qed.

Lemma pack_i_ok (v : Z) : - 2 ^ 31 <= v < 2 ^ 31 -> pack_i v = Ok (le_bytes 4 v).
Proof.
  intros H. unfold pack_i.
  replace ((- 2 ^ 31 <=? v) && (v <? 2 ^ 31)) with true; [reflexivity|].
  symmetry. apply andb_true_iff. lia.
Qed.

Lemma trailer_v2_loop_inv (infos : list entry_info) (acc t : bytes) :
  trailer_v2_loop infos acc = Ok t ->
  Forall packable infos /\ t = acc ++ concat (map trailer_record infos).
Proof.
  revert acc. induction infos as [|i r IH]; intros acc H; cbn [trailer_v2_loop] in H.
  - apply Ok_inj in H. subst t. simpl. now rewrite app_nil_r.
  - bind_inv H. bind_inv H.
    apply pack_I_inv in E as [R1 ->]. apply pack_i_inv in E0 as [R2 ->].
    apply IH in H as [HF ->]. split.
    + constructor; [split; assumption | assumption].
    + cbn [map concat]. unfold trailer_record. now rewrite <- !app_assoc.
Qed.

Lemma trailer_v2_loop_ok (infos : list entry_info) (acc : bytes) :
  Forall packable infos ->
  trailer_v2_loop infos acc = Ok (acc ++ concat (map trailer_record infos)).
Proof.
  intros HF. revert acc. induction HF as [|i r [R1 R2] HF IH]; intros acc.
  - simpl. now rewrite app_nil_r.
  - cbn [trailer_v2_loop]. rewrite pack_I_ok, pack_i_ok by assumption. cbn [bind].
    rewrite IH. cbn [map concat]. unfold trailer_record.
    now rewrite <- !app_assoc.
Qed.

Lemma header_v2_ok (now : datetime) (es : list entry_data) (cts : float64) :
  get_timestamp now = Ok cts -> len es < 2 ^ 32 ->
  header_v2 now es = Ok (header_v2_bytes (len es) cts).
Proof.
  intros Hts Hl. unfold header_v2.
  rewrite pack_I_ok by (pose proof (len_nonneg es); lia). cbn [bind].
  rewrite Hts. cbn [bind].
  rewrite header_v2_fill by (try apply length_le_bytes). reflexivity.
Qed.

Lemma header_v2_inv (now : datetime) (es : list entry_data) (h : bytes) :
  header_v2 now es = Ok h ->
  exists cts,
    get_timestamp now = Ok cts /\ 0 <= len es < 2 ^ 32 /\
    h = header_v2_bytes (len es) cts.
Proof.
  intros H. assert (H' := H). unfold header_v2 in H'.
  destruct (pack_I (len es)) as [p|] eqn:Ep; [|discriminate H'].
  cbn [bind] in H'.
  destruct (get_timestamp now) as [cts|] eqn:Ets; [|discriminate H'].
  apply pack_I_inv in Ep as [R _].
  rewrite (header_v2_ok now es cts Ets) in H by lia.
  apply Ok_inj in H. subst h. exists cts. repeat split; try reflexivity; lia.
Qed.

Lemma segb_version2_inv (now : datetime) (es : list entry_data) (out : bytes) :
  segb_version2 now es = Ok out ->
  exists cts ets,
    get_timestamp now = Ok cts /\
    mapM entry_v2 es = Ok ets /\
    0 <= len es < 2 ^ 32 /\
    Forall packable (infos_from 0 ets) /\
    out = header_v2_bytes (len es) cts
          ++ concat (map fst ets)
          ++ concat (map trailer_record (infos_from 0 ets)).
Proof.
  unfold segb_version2. intros H. bind_inv H.
  apply header_v2_inv in E as (cts & Hts & R & ->).
  bind_inv H. destruct a as [entries infos].
  apply loop_v2_inv in E as (ets & Hm & -> & ->).
  bind_inv H. apply trailer_v2_loop_inv in E as [HF ->].
  apply Ok_inj in H. subst out. exists cts, ets. cbn [app] in *.
  repeat split; try assumption; lia.
Qed.

Lemma segb_version2_ok (now : datetime) (es : list entry_data) (cts : float64)
    (ets : list (bytes * float64)) :
  get_timestamp now = Ok cts ->
  mapM entry_v2 es = Ok ets ->
  len es < 2 ^ 32 ->
  Forall packable (infos_from 0 ets) ->
  segb_version2 now es = Ok (header_v2_bytes (len es) cts
                       ++ concat (map fst ets)
                       ++ concat (map trailer_record (infos_from 0 ets))).
Proof.
  intros Hts Hm Hl HF. unfold segb_version2.
  rewrite (header_v2_ok _ _ _ Hts Hl). cbn [bind].
  rewrite (loop_v2_ok _ _ _ _ _ Hm). cbn [bind app].
  rewrite (trailer_v2_loop_ok _ _ HF). reflexivity.
Qed.

(* ================================================================== *)
(** * CRC32 is a 32-bit value *)

Lemma lxor_range (n a b : Z) :
  0 <= n -> 0 <= a < 2 ^ n -> 0 <= b < 2 ^ n -> 0 <= Z.lxor a b < 2 ^ n.
Proof.
  intros Hn Ha Hb.
  assert (Hx : 0 <= Z.lxor a b) by (apply Z.lxor_nonneg; lia).
  split; [assumption|].
  destruct (Z.eq_dec (Z.lxor a b) 0) as [->|Hnz]; [lia|].
  assert (Hpos : 0 < n).
  { destruct (Z.eq_dec n 0) as [->|]; [|lia].
    assert (a = 0) by lia. assert (b = 0) by lia. subst. now elim Hnz. }
  apply Z.log2_lt_pow2; [lia|].
  eapply Z.le_lt_trans; [apply Z.log2_lxor; lia|].
  apply Z.max_lub_lt.
  - destruct (Z.eq_dec a 0) as [->|]; [simpl; lia|]. apply Z.log2_lt_pow2; lia.
  - destruct (Z.eq_dec b 0) as [->|]; [simpl; lia|]. apply Z.log2_lt_pow2; lia.
Qed.

Lemma crc32_shift_range (c : Z) :
  0 <= c < 2 ^ 32 -> 0 <= crc32_shift c < 2 ^ 32.
Proof.
  intros H. unfold crc32_shift.
  assert (Hs : 0 <= Z.shiftr c 1 < 2 ^ 32).
  { rewrite Z.shiftr_div_pow2 by lia. change (2 ^ 1) with 2.
    split; [apply Z.div_pos; lia|].
    apply Z.div_lt_upper_bound; lia. }
  destruct (Z.odd c); [|assumption].
  apply lxor_range; lia.
Qed.

Lemma crc32_update_range (c : Z) (b : byte) :
  0 <= c < 2 ^ 32 -> 0 <= crc32_update c b < 2 ^ 32.
Proof.
  intros H. unfold crc32_update.
  assert (H0 : 0 <= Z.lxor c (Z_of_byte b) < 2 ^ 32).
  { apply lxor_range; [lia|assumption|]. pose proof (Z_of_byte_range b). lia. }
  generalize dependent (Z.lxor c (Z_of_byte b)). intros x Hx.
  do 8 (apply crc32_shift_range in Hx). exact Hx.
Qed.

Lemma crc32_fold_range (data : bytes) (c : Z) :
  0 <= c < 2 ^ 32 -> 0 <= fold_left crc32_update data c < 2 ^ 32.
Proof.
  revert c. induction data as [|b r IH]; intros c H; simpl; [assumption|].
  apply IH, crc32_update_range, H.
Qed.

Lemma binascii_crc32_range (data : bytes) : 0 <= binascii_crc32 data < 2 ^ 32.
Proof.
  unfold binascii_crc32. apply lxor_range; [lia| |lia].
  apply crc32_fold_range. lia.
Qed.

Lemma crc32_mask (data : bytes) :
  Z.land (binascii_crc32 data) 0xffffffff = binascii_crc32 data.
Proof.
  change 0xffffffff with (Z.ones 32). rewrite Z.land_ones by lia.
  apply Z.mod_small, binascii_crc32_range.
Qed.

(* ================================================================== *)
(** * Where the entries lie in a container *)

Lemma offset_of_0 (entries : list bytes) : offset_of 0 entries = 0.
Proof. reflexivity. Qed.

Lemma offset_of_S (i : nat) (entries : list bytes) (entry : bytes) :
  nth_error entries i = Some entry ->
  offset_of (S i) entries = offset_of i entries + len entry.
Proof.
  unfold offset_of. revert i. induction entries as [|x r IH]; intros i H.
  - destruct i; discriminate H.
  - destruct i as [|i].
    + injection H as ->. simpl. rewrite app_nil_r. unfold len. simpl. lia.
    + cbn [nth_error] in H. specialize (IH _ H).
      change (firstn (S (S i)) (x :: r)) with (x :: firstn (S i) r).
      change (firstn (S i) (x :: r)) with (x :: firstn i r).
      cbn [concat]. rewrite !len_app, IH. lia.
Qed.

Lemma offset_of_all (entries : list bytes) :
  offset_of (length entries) entries = len (concat entries).
Proof. unfold offset_of. now rewrite firstn_all. Qed.

Lemma concat_nth_split (entries : list bytes) (i : nat) (entry : bytes) :
  nth_error entries i = Some entry ->
  concat entries
  = concat (firstn i entries) ++ entry ++ concat (skipn (S i) entries).
Proof.
  revert i. induction entries as [|x r IH]; intros i H.
  - destruct i; discriminate H.
  - destruct i as [|i].
    + injection H as ->. reflexivity.
    + cbn [nth_error] in H. cbn [firstn skipn concat].
      rewrite (IH _ H) at 1. now rewrite <- app_assoc.
Qed.

(** A slice inside the [i]th entry of [pre ++ concat entries ++ post]. *)
Lemma slice_entry (pre post : bytes) (entries : list bytes) (i : nat)
    (entry : bytes) (lo hi : Z) :
  nth_error entries i = Some entry ->
  0 <= lo -> hi <= len entry ->
  slice (len pre + offset_of i entries + lo) (len pre + offset_of i entries + hi)
        (pre ++ concat entries ++ post)
  = slice lo hi entry.
Proof.
  intros Hn Hlo Hhi. unfold offset_of.
  rewrite (concat_nth_split _ _ _ Hn).
  replace (pre ++ (concat (firstn i entries) ++ entry ++ concat (skipn (S i) entries)) ++ post)
    with ((pre ++ concat (firstn i entries)) ++ entry ++ (concat (skipn (S i) entries) ++ post))
    by (now rewrite <- !app_assoc).
  rewrite <- len_app, slice_app_r by assumption.
  now apply slice_app_l.
Qed.

(* ================================================================== *)
(** * Both versions at once *)

Lemma len_unpadded (v : version) (ts : float64) (data : bytes) :
  len (unpadded v ts data) = data_pos v + len data.
Proof.
  destruct v; cbn [unpadded data_pos].
  - now rewrite len_app, len_entry_header_v1.
  - apply len_entry_body_v2.
Qed.

Lemma pad_range (size a : Z) : 0 < a -> 0 <= (a - size mod a) mod a < a.
Proof. intros H. apply Z.mod_pos_bound. exact H. Qed.

Lemma padded_multiple (size a : Z) :
  0 < a -> (size + (a - size mod a) mod a) mod a = 0.
Proof.
  intros H.
  rewrite Z.add_mod, Z.mod_mod by lia.
  rewrite <- Z.add_mod by lia.
  replace (size + (a - size mod a)) with (a * (1 + size / a)).
  - rewrite Z.mul_comm. apply Z.mod_mul. lia.
  - pose proof (Z.div_mod size a). lia.
Qed.

Lemma entry_of_inv (v : version) (e : entry_data) (entry : bytes) :
  entry_of v e = Ok entry ->
  exists ts data,
    get_timestamp (date e) = Ok ts /\
    data_bytes e = Ok data /\
    entry = unpadded v ts data
            ++ zeros ((alignment v - len (unpadded v ts data) mod alignment v)
                      mod alignment v).
Proof.
  destruct v; cbn [entry_of]; intros H.
  - apply entry_v1_inv in H as (ts & data & Hts & Hd & _ & ->).
    exists ts, data. repeat split; assumption.
  - bind_inv H. destruct a as [en ts]. apply Ok_inj in H. cbn [fst] in H. subst en.
    apply entry_v2_inv in E as (data & Hts & Hd & ->).
    exists ts, data. repeat split; assumption.
Qed.

Lemma mapM_fst (es : list entry_data) (ets : list (bytes * float64)) :
  mapM entry_v2 es = Ok ets -> mapM (entry_of V2) es = Ok (map fst ets).
Proof.
  revert ets. induction es as [|e r IH]; intros ets H; cbn [mapM] in *.
  - apply Ok_inj in H. now subst.
  - bind_inv H. bind_inv H. apply Ok_inj in H. subst ets.
    cbn [entry_of]. rewrite E. cbn [bind]. rewrite (IH _ eq_refl). reflexivity.
Qed.

(** Every container is a header, the entries one after the other, and (for
    version 2) a trailer. *)
Lemma encode_layout (v : version) (now : datetime) (es : list entry_data)
    (out : bytes) :
  encode v now es = Ok out ->
  exists entries pre post,
    mapM (entry_of v) es = Ok entries /\
    out = pre ++ concat entries ++ post /\
    len pre = header_size v.
Proof.
  destruct v; cbn [encode]; intros H.
  - apply segb_version1_inv in H as (entries & Hm & R & ->).
    exists entries, (header_v1 (0x38 + len (concat entries))), [].
    rewrite app_nil_r.
    split; [assumption|]. split; [reflexivity|]. apply len_header_v1.
  - apply segb_version2_inv in H as (cts & ets & Hts & Hm & R & HF & ->).
    exists (map fst ets), (header_v2_bytes (len es) cts),
           (concat (map trailer_record (infos_from 0 ets))).
    split; [now apply mapM_fst|]. split; [reflexivity|].
    apply len_header_v2_bytes.
Qed.

(* ================================================================== *)
(** * Reading fields back *)

Lemma fields_4_4_8 (a b c tail : bytes) :
  length a = 4%nat -> length b = 4%nat -> length c = 8%nat ->
  slice 0 4 (a ++ b ++ c ++ tail) = a /\
  slice 4 8 (a ++ b ++ c ++ tail) = b /\
  slice 8 16 (a ++ b ++ c ++ tail) = c /\
  skipn 16 (a ++ b ++ c ++ tail) = tail.
Proof.
  intros Ha Hb Hc. explode a Ha. explode b Hb. explode c Hc.
  repeat split; reflexivity.
Qed.

Lemma slice_shift (k lo hi : Z) (x y : bytes) :
  len x = k -> 0 <= lo -> slice (k + lo) (k + hi) (x ++ y) = slice lo hi y.
Proof. intros <- H. now apply slice_app_r. Qed.

Lemma entry_header_v1_fields (ts : float64) (data tail : bytes) :
  let h := entry_header_v1 ts data ++ tail in
  slice 0x00 0x04 h = le_bytes 4 (len data) /\
  slice 0x04 0x08 h = le_bytes 4 1 /\
  slice 0x08 0x10 h = pack_d ts /\
  slice 0x10 0x18 h = pack_d ts /\
  slice 0x18 0x1C h = le_bytes 4 (binascii_crc32 data) /\
  slice 0x1C 0x20 h = zeros 4 /\
  slice 0x00 0x20 h = entry_header_v1 ts data.
Proof.
  intros h. subst h. unfold entry_header_v1. rewrite crc32_mask.
  set (a := le_bytes 4 (len data)). set (b := le_bytes 4 1).
  set (c := pack_d ts). set (f := le_bytes 4 (binascii_crc32 data)).
  assert (Ha : length a = 4%nat) by apply length_le_bytes.
  assert (Hb : length b = 4%nat) by apply length_le_bytes.
  assert (Hc : length c = 8%nat) by apply length_le_bytes.
  assert (Hf : length f = 4%nat) by apply length_le_bytes.
  clearbody a b c f.
  explode a Ha. explode b Hb. explode c Hc. explode f Hf.
  repeat split; reflexivity.
Qed.

Lemma entry_body_v2_fields (data tail : bytes) :
  let h := entry_body_v2 data ++ tail in
  slice 0x00 0x04 h = le_bytes 4 (binascii_crc32 data) /\
  slice 0x04 0x08 h = zeros 4 /\
  skipn 8 h = data ++ tail.
Proof.
  intros h. subst h. unfold entry_body_v2. rewrite crc32_mask.
  set (f := le_bytes 4 (binascii_crc32 data)).
  assert (Hf : length f = 4%nat) by apply length_le_bytes.
  clearbody f. explode f Hf.
  repeat split; reflexivity.
Qed.

Lemma header_v2_fields (n : Z) (cts : float64) (tail : bytes) :
  let h := header_v2_bytes n cts ++ tail in
  slice 0x00 0x04 h = SEGB /\
  slice 0x04 0x08 h = le_bytes 4 n /\
  slice 0x08 0x10 h = pack_d cts /\
  slice 0x10 0x20 h = zeros 16 /\
  slice 0x00 0x20 h = header_v2_bytes n cts.
Proof.
  intros h. subst h. unfold header_v2_bytes.
  set (a := le_bytes 4 n). set (c := pack_d cts).
  assert (Ha : length a = 4%nat) by apply length_le_bytes.
  assert (Hc : length c = 8%nat) by apply length_le_bytes.
  clearbody a c. explode a Ha. explode c Hc.
  repeat split; reflexivity.
Qed.

Lemma header_v1_fields (n : Z) (tail : bytes) :
  let h := header_v1 n ++ tail in
  slice 0x00 0x04 h = le_bytes 4 n /\
  slice 0x04 0x34 h = zeros 0x30 /\
  slice 0x34 0x38 h = SEGB.
Proof.
  intros h. subst h. unfold header_v1.
  set (a := le_bytes 4 n).
  assert (Ha : length a = 4%nat) by apply length_le_bytes.
  clearbody a. explode a Ha.
  repeat split; reflexivity.
Qed.

(* ================================================================== *)
(** * Timestamps *)

Lemma new_delta_us (d s us : Z) (t : timedelta) :
  new_delta d s us = Ok t -> delta_us t = (d * 86400 + s) * 10 ^ 6 + us.
Proof.
  unfold new_delta.
  destruct ((-999999999 <=? d + (s + us / 1000000) / 86400)
            && (d + (s + us / 1000000) / 86400 <=? 999999999)); [|discriminate].
  intros H. apply Ok_inj in H. subst t. unfold delta_us. cbn [days seconds microseconds].
  change (10 ^ 6) with 1000000.
  pose proof (Z.div_mod us 1000000).
  pose proof (Z.div_mod (s + us / 1000000) 86400).
  lia.
Qed.

Lemma delta_sub_us (a b t : timedelta) :
  delta_sub a b = Ok t -> delta_us t = delta_us a - delta_us b.
Proof.
  unfold delta_sub. intros H. apply new_delta_us in H. rewrite H.
  unfold delta_us. lia.
Qed.

Lemma get_timestamp_elapsed (dt : datetime) (ts : float64) :
  get_timestamp dt = Ok ts ->
  exists off,
    tzinfo dt = Some off /\
    int_truediv (elapsed_us dt off) (10 ^ 6) = Ok ts.
Proof.
  unfold get_timestamp. intros H. bind_inv H. rename a into delta.
  unfold datetime_sub in E. cbn [tzinfo BASE_DATE] in E.
  destruct (tzinfo dt) as [off|] eqn:Etz; [|discriminate E].
  exists off. split; [reflexivity|].
  bind_inv E. rename a into offdiff. bind_inv E. rename a into r.
  apply delta_sub_us in E0, E. apply new_delta_us in E1.
  unfold total_seconds in H. fold (delta_us delta) in H.
  rewrite <- H. f_equal.
  rewrite E, E1, E0. unfold elapsed_us, wall_us.
  cbn [year month day hour minute second microsecond BASE_DATE].
  change (delta_us utc) with 0. lia.
Qed.

(** The timestamp of the base date itself is 0.0, and the Unix epoch lies
    978307200 seconds before it. *)
Example get_timestamp_samples :
  get_timestamp BASE_DATE = Ok (F64 0) /\
  get_timestamp (utc_date 1970 1 1) = Ok (F64 0xC1CD27E440000000) /\
  get_timestamp (utc_date 2007 1 9) = Ok (F64 0x41A6A62500000000).
Proof. repeat split; vm_compute; reflexivity. Qed.

(* ================================================================== *)
(** * Entries: padding, checksum, header *)

Lemma len_concat (entries : list bytes) : len (concat entries) = sum_sizes entries.
Proof.
  induction entries as [|x r IH]; [reflexivity|].
  cbn [concat sum_sizes fold_right]. rewrite len_app, IH. reflexivity.
Qed.

Lemma entry_facts (v : version) (e : entry_data) (entry : bytes) :
  entry_of v e = Ok entry ->
  exists ts data pad,
    get_timestamp (date e) = Ok ts /\
    data_bytes e = Ok data /\
    pad = (alignment v - len (unpadded v ts data) mod alignment v) mod alignment v /\
    0 <= pad < alignment v /\
    entry = unpadded v ts data ++ zeros pad /\
    len entry = data_pos v + len data + pad /\
    len entry mod alignment v = 0.
Proof.
  intros H. apply entry_of_inv in H as (ts & data & Hts & Hd & ->).
  assert (Ha : 0 < alignment v) by (destruct v; reflexivity).
  pose proof (pad_range (len (unpadded v ts data)) (alignment v) Ha) as Hp.
  exists ts, data, ((alignment v - len (unpadded v ts data) mod alignment v) mod alignment v).
  split; [assumption|]. split; [assumption|]. split; [reflexivity|].
  split; [assumption|]. split; [reflexivity|].
  rewrite len_app, len_zeros by lia. split.
  - now rewrite len_unpadded.
  - now apply padded_multiple.
Qed.

(** C4: in either version the zero padding appended to an entry is
    [(alignment - (unpadded size mod alignment)) mod alignment] bytes long,
    with alignment 8 for version 1 and 4 for version 2; nothing is appended
    when the unpadded size is already a multiple of the alignment, and the
    padded size is a multiple of the alignment. *)
Theorem padding_rule (v : version) (e : entry_data) (entry : bytes) :
  entry_of v e = Ok entry ->
  exists ts data,
    get_timestamp (date e) = Ok ts /\
    data_bytes e = Ok data /\
    let size := len (unpadded v ts data) in
    let a := alignment v in
    a = match v with V1 => 8 | V2 => 4 end /\
    entry = unpadded v ts data ++ zeros ((a - size mod a) mod a) /\
    len entry - size = (a - size mod a) mod a /\
    (size mod a = 0 -> entry = unpadded v ts data) /\
    len entry mod a = 0.
Proof.
  intros H. apply entry_facts in H as (ts & data & pad & Hts & Hd & Hp & Hr & He & Hl & Hm).
  exists ts, data. split; [assumption|]. split; [assumption|].
  cbv zeta. rewrite <- Hp.
  split; [destruct v; reflexivity|]. split; [assumption|].
  split; [rewrite Hl, len_unpadded; lia|]. split; [|assumption].
  intros Hz. rewrite Hz, Z.sub_0_r, Z.mod_same in Hp by lia.
  subst pad. rewrite He. apply app_nil_r.
Qed.

Lemma padding_rule_witness :
  entry_of V1 sample_entry = Ok sample_entry_v1 /\
  exists ts data,
    get_timestamp (date sample_entry) = Ok ts /\
    data_bytes sample_entry = Ok data /\
    let size := len (unpadded V1 ts data) in
    let a := alignment V1 in
    a = 8 /\
    sample_entry_v1 = unpadded V1 ts data ++ zeros ((a - size mod a) mod a) /\
    len sample_entry_v1 - size = (a - size mod a) mod a /\
    (size mod a = 0 -> sample_entry_v1 = unpadded V1 ts data) /\
    len sample_entry_v1 mod a = 0.
Proof.
  split; [vm_compute; reflexivity|].
  apply (padding_rule V1 sample_entry sample_entry_v1). vm_compute. reflexivity.
Defined.

(** C2: the u32 written into bytes [0x00:0x04) of the version 1 header is
    the header size 0x38 plus the sum of the padded sizes of all entries,
    and it is the length of the container written. *)
Theorem end_offset_v1 (es : list entry_data) (out : bytes) :
  segb_version1 es = Ok out ->
  exists entries,
    mapM entry_v1 es = Ok entries /\
    slice 0x00 0x04 out = le_bytes 4 (0x38 + sum_sizes entries) /\
    decode_u32 (slice 0x00 0x04 out) = 0x38 + sum_sizes entries /\
    decode_u32 (slice 0x00 0x04 out) = len out.
Proof.
  intros H. apply segb_version1_inv in H as (entries & Hm & R & ->).
  exists entries. split; [assumption|].
  destruct (header_v1_fields (0x38 + len (concat entries)) (concat entries))
    as (F0 & _).
  rewrite F0, decode_u32_le_bytes by assumption.
  rewrite len_app, len_header_v1, <- len_concat. repeat split; reflexivity.
Qed.

Lemma end_offset_v1_witness :
  segb_version1 entries_data = Ok sample_v1 /\
  exists entries,
    mapM entry_v1 entries_data = Ok entries /\
    slice 0x00 0x04 sample_v1 = le_bytes 4 (0x38 + sum_sizes entries) /\
    decode_u32 (slice 0x00 0x04 sample_v1) = 0x38 + sum_sizes entries /\
    decode_u32 (slice 0x00 0x04 sample_v1) = len sample_v1.
Proof.
  split; [vm_compute; reflexivity|].
  apply (end_offset_v1 entries_data sample_v1). vm_compute. reflexivity.
Defined.

Lemma unpadded_checksum (v : version) (ts : float64) (data tail : bytes) :
  slice (checksum_pos v) (checksum_pos v + 4) (unpadded v ts data ++ tail)
  = le_bytes 4 (binascii_crc32 data).
Proof.
  destruct v; cbn [checksum_pos unpadded].
  - rewrite <- app_assoc. apply entry_header_v1_fields.
  - apply entry_body_v2_fields.
Qed.

Lemma unpadded_data (v : version) (ts : float64) (data tail : bytes) :
  slice (data_pos v) (data_pos v + len data) (unpadded v ts data ++ tail) = data.
Proof.
  destruct v; cbn [data_pos unpadded].
  - rewrite <- app_assoc.
    rewrite (slice_shift 0x20 0 (len data)) by (try apply len_entry_header_v1; lia).
    apply slice_prefix.
  - unfold entry_body_v2. rewrite <- !app_assoc.
    rewrite app_assoc.
    rewrite (slice_shift 0x08 0 (len data)); [apply slice_prefix| |lia].
    rewrite len_app, len_le_bytes, len_zeros by lia. reflexivity.
Qed.

(** C3: in either version the checksum stored with a record is the CRC32 of
    the record's data bytes alone: the bytes that lie between the entry's
    fixed fields and its padding. *)
Theorem checksum_is_crc32_of_data (v : version) (now : datetime)
    (es : list entry_data) (out : bytes) (i : nat) (e : entry_data) :
  encode v now es = Ok out ->
  nth_error es i = Some e ->
  exists entries data,
    mapM (entry_of v) es = Ok entries /\
    data_bytes e = Ok data /\
    let start := header_size v + offset_of i entries in
    slice (start + checksum_pos v) (start + checksum_pos v + 4) out
    = le_bytes 4 (binascii_crc32 data) /\
    decode_u32 (slice (start + checksum_pos v) (start + checksum_pos v + 4) out)
    = binascii_crc32 data /\
    slice (start + data_pos v) (start + data_pos v + len data) out = data.
Proof.
  intros H Hi.
  apply encode_layout in H as (entries & pre & post & Hm & -> & Hpre).
  destruct (mapM_nth _ _ _ _ _ Hm Hi) as (entry & Hn & He).
  apply entry_facts in He as (ts & data & pad & Hts & Hd & Hp & Hr & He & Hl & _).
  exists entries, data. split; [assumption|]. split; [assumption|].
  cbv zeta. rewrite <- Hpre.
  pose proof (len_nonneg data) as Hdl.
  assert (Hc : 0 <= checksum_pos v /\ checksum_pos v + 4 <= data_pos v)
    by (destruct v; cbn; lia).
  rewrite <- !Z.add_assoc.
  rewrite !(Z.add_assoc (len pre)).
  rewrite !(slice_entry pre post entries i entry) by (try assumption; lia).
  rewrite He, unpadded_checksum, unpadded_data.
  rewrite decode_u32_le_bytes by apply binascii_crc32_range.
  repeat split; reflexivity.
Qed.

Lemma checksum_is_crc32_of_data_witness :
  encode V2 sample_now entries_data = Ok sample_v2 /\
  nth_error entries_data 1 = Some sample_entry /\
  exists entries data,
    mapM (entry_of V2) entries_data = Ok entries /\
    data_bytes sample_entry = Ok data /\
    let start := header_size V2 + offset_of 1 entries in
    slice (start + checksum_pos V2) (start + checksum_pos V2 + 4) sample_v2
    = le_bytes 4 (binascii_crc32 data) /\
    decode_u32 (slice (start + checksum_pos V2) (start + checksum_pos V2 + 4) sample_v2)
    = binascii_crc32 data /\
    slice (start + data_pos V2) (start + data_pos V2 + len data) sample_v2 = data.
Proof.
  split; [vm_compute; reflexivity|]. split; [reflexivity|].
  apply (checksum_is_crc32_of_data V2 sample_now entries_data sample_v2 1 sample_entry);
    vm_compute; reflexivity.
Defined.

(** C5: the 32-byte entry header of version 1 holds, in this order and
    little-endian: the data length as u32, the state 1 as i32, the timestamp
    as f64 twice, the checksum as u32 and four zero bytes; the timestamp is
    the number of microseconds elapsed from 2001-01-01T00:00:00 UTC to the
    record's date, divided by 10^6 as a float. *)
Theorem entry_header_v1_layout (es : list entry_data) (out : bytes) (i : nat)
    (e : entry_data) :
  segb_version1 es = Ok out ->
  nth_error es i = Some e ->
  exists entries data ts off,
    mapM entry_v1 es = Ok entries /\
    data_bytes e = Ok data /\
    tzinfo (date e) = Some off /\
    int_truediv (elapsed_us (date e) off) (10 ^ 6) = Ok ts /\
    let start := 0x38 + offset_of i entries in
    slice start (start + 0x04) out = le_bytes 4 (len data) /\
    decode_u32 (slice start (start + 0x04) out) = len data /\
    slice (start + 0x04) (start + 0x08) out = le_bytes 4 1 /\
    decode_i32 (slice (start + 0x04) (start + 0x08) out) = 1 /\
    slice (start + 0x08) (start + 0x10) out = le_bytes 8 (float_bits ts) /\
    slice (start + 0x10) (start + 0x18) out = le_bytes 8 (float_bits ts) /\
    slice (start + 0x18) (start + 0x1C) out = le_bytes 4 (binascii_crc32 data) /\
    decode_u32 (slice (start + 0x18) (start + 0x1C) out) = binascii_crc32 data /\
    slice (start + 0x1C) (start + 0x20) out = zeros 4.
Proof.
  intros H Hi.
  apply segb_version1_inv in H as (entries & Hm & R & ->).
  destruct (mapM_nth _ _ _ _ _ Hm Hi) as (entry & Hn & He).
  apply entry_v1_inv in He as (ts & data & Hts & Hd & Hl & He).
  apply get_timestamp_elapsed in Hts as (off & Htz & Hts).
  exists entries, data, ts, off.
  split; [assumption|]. split; [assumption|]. split; [assumption|].
  split; [assumption|]. cbv zeta.
  rewrite <- (len_header_v1 (0x38 + len (concat entries))).
  set (pre := header_v1 _).
  rewrite <- (app_nil_r (concat entries)).
  assert (Hlen : 0x20 <= len entry).
  { rewrite He, !len_app, len_entry_header_v1.
    pose proof (len_nonneg data).
    pose proof (len_nonneg (zeros ((8 - (32 + len data) mod 8) mod 8))). lia. }
  rewrite <- (Z.add_0_r (len pre + offset_of i entries)) at 1 3.
  rewrite !(slice_entry pre [] entries i entry) by (try assumption; lia).
  rewrite He, <- app_assoc.
  destruct (entry_header_v1_fields ts data
              (data ++ zeros ((8 - len (entry_header_v1 ts data ++ data) mod 8) mod 8)))
    as (F0 & F1 & F2 & F3 & F4 & F5 & _).
  rewrite F0, F1, F2, F3, F4, F5.
  rewrite !decode_u32_le_bytes by (try apply binascii_crc32_range; assumption).
  rewrite decode_i32_le_bytes by lia.
  repeat split; reflexivity.
Qed.

Lemma entry_header_v1_layout_witness :
  segb_version1 entries_data = Ok sample_v1 /\
  nth_error entries_data 1 = Some sample_entry /\
  exists entries data ts off,
    mapM entry_v1 entries_data = Ok entries /\
    data_bytes sample_entry = Ok data /\
    tzinfo (date sample_entry) = Some off /\
    int_truediv (elapsed_us (date sample_entry) off) (10 ^ 6) = Ok ts /\
    let start := 0x38 + offset_of 1 entries in
    slice start (start + 0x04) sample_v1 = le_bytes 4 (len data) /\
    decode_u32 (slice start (start + 0x04) sample_v1) = len data /\
    slice (start + 0x04) (start + 0x08) sample_v1 = le_bytes 4 1 /\
    decode_i32 (slice (start + 0x04) (start + 0x08) sample_v1) = 1 /\
    slice (start + 0x08) (start + 0x10) sample_v1 = le_bytes 8 (float_bits ts) /\
    slice (start + 0x10) (start + 0x18) sample_v1 = le_bytes 8 (float_bits ts) /\
    slice (start + 0x18) (start + 0x1C) sample_v1 = le_bytes 4 (binascii_crc32 data) /\
    decode_u32 (slice (start + 0x18) (start + 0x1C) sample_v1) = binascii_crc32 data /\
    slice (start + 0x1C) (start + 0x20) sample_v1 = zeros 4.
Proof.
  split; [vm_compute; reflexivity|]. split; [reflexivity|].
  apply (entry_header_v1_layout entries_data sample_v1 1 sample_entry);
    vm_compute; reflexivity.
Defined.

(* ================================================================== *)
(** * The version 2 container *)

Lemma slice_slice (a b lo hi : Z) (l : bytes) :
  0 <= lo -> 0 <= a -> b <= hi - lo ->
  slice a b (slice lo hi l) = slice (lo + a) (lo + b) l.
Proof.
  intros Hlo Ha Hb. unfold slice.
  rewrite skipn_firstn_comm, firstn_firstn, skipn_skipn.
  f_equal; [lia | f_equal; lia].
Qed.

Lemma infos_from_nth (off : Z) (ets : list (bytes * float64)) (i : nat)
    (et : bytes * float64) :
  nth_error ets i = Some et ->
  nth_error (infos_from off ets) i
  = Some (mk_entry_info (off + offset_of i (map fst ets)) 0x01 (snd et)).
Proof.
  revert off i. induction ets as [|x r IH]; intros off i H.
  - destruct i; discriminate H.
  - destruct i as [|i]; cbn [nth_error infos_from] in *.
    + injection H as ->. rewrite offset_of_0, Z.add_0_r. reflexivity.
    + rewrite (IH _ _ H). do 2 f_equal.
      unfold offset_of. cbn [map firstn concat]. rewrite len_app. lia.
Qed.

Lemma offset_of_records (infos : list entry_info) (i : nat) :
  (i <= length infos)%nat ->
  offset_of i (map trailer_record infos) = 16 * Z.of_nat i.
Proof.
  unfold offset_of. revert i. induction infos as [|x r IH]; intros i H.
  - destruct i; [reflexivity | simpl in H; lia].
  - destruct i as [|i]; [reflexivity|].
    cbn [map firstn concat]. rewrite len_app, len_trailer_record, IH
      by (simpl in H; lia). lia.
Qed.

Lemma len_concat_records (infos : list entry_info) :
  len (concat (map trailer_record infos)) = 16 * len infos.
Proof.
  rewrite <- offset_of_all, length_map. apply offset_of_records. lia.
Qed.

(** The parts of a version 2 container: header, data region, trailer, and
    the 16 bytes of each record of the trailer. *)
Lemma segb_version2_parts (now : datetime) (es : list entry_data) (out : bytes) :
  segb_version2 now es = Ok out ->
  exists cts ets trailer,
    get_timestamp now = Ok cts /\
    mapM entry_v2 es = Ok ets /\
    0 <= len es < 2 ^ 32 /\
    out = header_v2_bytes (len es) cts ++ concat (map fst ets) ++ trailer /\
    len trailer = len es * 16 /\
    len out - len es * 16 = 0x20 + len (concat (map fst ets)) /\
    forall (i : nat) (et : bytes * float64),
      nth_error ets i = Some et ->
      0 <= offset_of i (map fst ets) < 2 ^ 32 /\
      slice (16 * Z.of_nat i) (16 * Z.of_nat i + 16) trailer
      = trailer_record (mk_entry_info (offset_of i (map fst ets)) 0x01 (snd et)).
Proof.
  intros H. apply segb_version2_inv in H as (cts & ets & Hts & Hm & R & HF & ->).
  exists cts, ets, (concat (map trailer_record (infos_from 0 ets))).
  assert (Hn : len (infos_from 0 ets) = len es).
  { unfold len. rewrite infos_from_length, (mapM_length _ _ _ Hm). reflexivity. }
  split; [assumption|]. split; [assumption|]. split; [assumption|].
  split; [reflexivity|].
  split; [rewrite len_concat_records; lia|].
  split.
  { rewrite !len_app, len_header_v2_bytes, len_concat_records. lia. }
  intros i et Hi.
  pose proof (infos_from_nth 0 ets i et Hi) as Hinfo. rewrite Z.add_0_l in Hinfo.
  split.
  - rewrite Forall_forall in HF.
    apply nth_error_In, HF in Hinfo. destruct Hinfo as [Ho _]. exact Ho.
  - assert (Hrec : nth_error (map trailer_record (infos_from 0 ets)) i
                   = Some (trailer_record
                       (mk_entry_info (offset_of i (map fst ets)) 0x01 (snd et))))
      by (now apply map_nth_error).
    assert (Hle : (i <= length (infos_from 0 ets))%nat).
    { apply Nat.lt_le_incl. apply nth_error_Some. rewrite Hinfo. discriminate. }
    pose proof (slice_entry [] [] _ i _ 0 16 Hrec) as S.
    rewrite offset_of_records in S by assumption.
    rewrite len_trailer_record in S.
    cbn [app] in S. rewrite app_nil_r in S.
    change (len (@nil byte)) with 0 in S. rewrite !Z.add_0_l, Z.add_0_r in S.
    rewrite S by lia.
    rewrite <- (len_trailer_record (mk_entry_info (offset_of i (map fst ets)) 1 (snd et))).
    apply slice_all.
Qed.

(** C6: a version 2 container starts with a header of exactly 32 bytes: the
    magic SEGB at offset 0, the number of input records as u32 at offset 4,
    the creation timestamp (the clock reading in seconds since 2001-01-01,
    as f64) at offset 8, then 16 zero bytes; the first entry follows at
    offset 32. *)
Theorem header_v2_layout (now : datetime) (es : list entry_data) (out : bytes) :
  segb_version2 now es = Ok out ->
  exists cts off ets,
    tzinfo now = Some off /\
    int_truediv (elapsed_us now off) (10 ^ 6) = Ok cts /\
    mapM entry_v2 es = Ok ets /\
    slice 0x00 0x04 out = SEGB /\
    slice 0x04 0x08 out = le_bytes 4 (len es) /\
    decode_u32 (slice 0x04 0x08 out) = len es /\
    slice 0x08 0x10 out = le_bytes 8 (float_bits cts) /\
    slice 0x10 0x20 out = zeros 16 /\
    slice 0x20 (0x20 + len (concat (map fst ets))) out = concat (map fst ets).
Proof.
  intros H.
  apply segb_version2_parts in H as (cts & ets & trailer & Hts & Hm & R & -> & _).
  apply get_timestamp_elapsed in Hts as (off & Htz & Hts).
  exists cts, off, ets.
  split; [assumption|]. split; [assumption|]. split; [assumption|].
  destruct (header_v2_fields (len es) cts (concat (map fst ets) ++ trailer))
    as (F0 & F1 & F2 & F3 & _).
  rewrite F0, F1, F2, F3, decode_u32_le_bytes by assumption.
  repeat split; try reflexivity.
  rewrite (slice_shift 0x20 0 (len (concat (map fst ets))))
    by (try apply len_header_v2_bytes; lia).
  apply slice_prefix.
Qed.

Lemma header_v2_layout_witness :
  segb_version2 sample_now entries_data = Ok sample_v2 /\
  exists cts off ets,
    tzinfo sample_now = Some off /\
    int_truediv (elapsed_us sample_now off) (10 ^ 6) = Ok cts /\
    mapM entry_v2 entries_data = Ok ets /\
    slice 0x00 0x04 sample_v2 = SEGB /\
    slice 0x04 0x08 sample_v2 = le_bytes 4 (len entries_data) /\
    decode_u32 (slice 0x04 0x08 sample_v2) = len entries_data /\
    slice 0x08 0x10 sample_v2 = le_bytes 8 (float_bits cts) /\
    slice 0x10 0x20 sample_v2 = zeros 16 /\
    slice 0x20 (0x20 + len (concat (map fst ets))) sample_v2
    = concat (map fst ets).
Proof.
  split; [vm_compute; reflexivity|].
  apply (header_v2_layout sample_now entries_data sample_v2).
  vm_compute. reflexivity.
Defined.

(** C7: a version 2 container ends with a trailer of exactly
    [entry_count * 16] bytes, one 16-byte record per entry in the order of
    the entries: offset as u32, state as i32, timestamp as f64, all
    little-endian. *)
Theorem trailer_v2_layout (now : datetime) (es : list entry_data) (out : bytes) :
  segb_version2 now es = Ok out ->
  exists ets trailer,
    mapM entry_v2 es = Ok ets /\
    len trailer = len es * 16 /\
    len out = 0x20 + len (concat (map fst ets)) + len trailer /\
    skipn (Z.to_nat (len out - len es * 16)) out = trailer /\
    forall (i : nat) (e : entry_data),
      nth_error es i = Some e ->
      exists entry ts,
        entry_v2 e = Ok (entry, ts) /\
        nth_error ets i = Some (entry, ts) /\
        slice (16 * Z.of_nat i) (16 * Z.of_nat i + 16) trailer
        = le_bytes 4 (offset_of i (map fst ets)) ++ le_bytes 4 1
          ++ le_bytes 8 (float_bits ts).
Proof.
  intros H.
  apply segb_version2_parts in H
    as (cts & ets & trailer & Hts & Hm & R & -> & Ht & Hs & Hrec).
  exists ets, trailer.
  split; [assumption|]. split; [assumption|].
  split; [lia|]. split.
  - rewrite Hs, app_assoc, <- (len_header_v2_bytes (len es) cts), <- len_app.
    apply skipn_len_app.
  - intros i e Hi.
    destruct (mapM_nth _ _ _ _ _ Hm Hi) as ([entry ts] & Hn & He).
    exists entry, ts. split; [assumption|]. split; [assumption|].
    apply (Hrec _ _ Hn).
Qed.

Lemma trailer_v2_layout_witness :
  segb_version2 sample_now entries_data = Ok sample_v2 /\
  exists ets trailer,
    mapM entry_v2 entries_data = Ok ets /\
    len trailer = len entries_data * 16 /\
    len sample_v2 = 0x20 + len (concat (map fst ets)) + len trailer /\
    skipn (Z.to_nat (len sample_v2 - len entries_data * 16)) sample_v2 = trailer /\
    forall (i : nat) (e : entry_data),
      nth_error entries_data i = Some e ->
      exists entry ts,
        entry_v2 e = Ok (entry, ts) /\
        nth_error ets i = Some (entry, ts) /\
        slice (16 * Z.of_nat i) (16 * Z.of_nat i + 16) trailer
        = le_bytes 4 (offset_of i (map fst ets)) ++ le_bytes 4 1
          ++ le_bytes 8 (float_bits ts).
Proof.
  split; [vm_compute; reflexivity|].
  apply (trailer_v2_layout sample_now entries_data sample_v2).
  vm_compute. reflexivity.
Defined.

Lemma mapM_Forall {A B : Type} (f : A -> result B) (P : B -> Prop)
    (l : list A) (l' : list B) :
  (forall x y, f x = Ok y -> P y) -> mapM f l = Ok l' -> Forall P l'.
Proof.
  intros HP. revert l'. induction l as [|x r IH]; intros l' H; cbn [mapM] in H.
  - apply Ok_inj in H. subst. constructor.
  - bind_inv H. bind_inv H. apply Ok_inj in H. subst l'.
    constructor; [eapply HP; eassumption | now apply IH].
Qed.

Lemma entry_v2_facts (e : entry_data) (entry : bytes) (ts : float64) :
  entry_v2 e = Ok (entry, ts) ->
  exists data pad,
    get_timestamp (date e) = Ok ts /\
    data_bytes e = Ok data /\
    0 <= pad < 4 /\
    entry = entry_body_v2 data ++ zeros pad /\
    len entry = 8 + len data + pad /\
    len entry mod 4 = 0.
Proof.
  intros H.
  assert (H1 : entry_of V2 e = Ok entry) by (cbn [entry_of]; now rewrite H).
  apply entry_facts in H1 as (ts' & data & pad & Hts & Hd & Hp & Hr & He & Hl & Hm).
  apply entry_v2_inv in H as (data' & Hts' & _).
  exists data, pad. rewrite Hts' in Hts. apply Ok_inj in Hts. subst ts'.
  repeat split; try assumption; apply Hr.
Qed.

Lemma stored_offset (now : datetime) (es : list entry_data) (out : bytes)
    (ets : list (bytes * float64)) (i : nat) (et : bytes * float64) :
  segb_version2 now es = Ok out ->
  mapM entry_v2 es = Ok ets ->
  nth_error ets i = Some et ->
  let trailer_start := len out - len es * 16 in
  decode_u32 (slice (trailer_start + 16 * Z.of_nat i)
                    (trailer_start + 16 * Z.of_nat i + 4) out)
  = offset_of i (map fst ets).
Proof.
  intros H Hm Hi.
  apply segb_version2_parts in H
    as (cts & ets' & trailer & Hts & Hm' & R & -> & Ht & Hs & Hrec).
  rewrite Hm in Hm'. apply Ok_inj in Hm'. subst ets'.
  destruct (Hrec _ _ Hi) as [Ho Hr].
  cbv zeta. rewrite Hs.
  rewrite <- (len_header_v2_bytes (len es) cts), <- len_app, app_assoc.
  rewrite <- Z.add_assoc, slice_app_r by lia.
  replace (slice (16 * Z.of_nat i) (16 * Z.of_nat i + 4) trailer)
    with (slice 0 4 (slice (16 * Z.of_nat i) (16 * Z.of_nat i + 16) trailer))
    by (rewrite slice_slice by lia; f_equal; lia).
  rewrite Hr. unfold trailer_record. cbn [offset state timestamp].
  rewrite <- (app_nil_r (pack_d (snd et))).
  destruct (fields_4_4_8 (le_bytes 4 (offset_of i (map fst ets))) (le_bytes 4 1)
              (pack_d (snd et)) []) as (F0 & _);
    try apply length_le_bytes.
  rewrite F0. now apply decode_u32_le_bytes.
Qed.

(** C8: the offset in each trailer record is relative to the first byte
    after the 32-byte header: it is the sum of the padded sizes of the
    entries before it, the entry lies at that offset past byte 32, and the
    first offset is 0. *)
Theorem trailer_offsets_v2 (now : datetime) (es : list entry_data) (out : bytes)
    (i : nat) (e : entry_data) :
  segb_version2 now es = Ok out ->
  nth_error es i = Some e ->
  exists ets entry ts,
    mapM entry_v2 es = Ok ets /\
    entry_v2 e = Ok (entry, ts) /\
    nth_error ets i = Some (entry, ts) /\
    let trailer_start := len out - len es * 16 in
    let o := decode_u32 (slice (trailer_start + 16 * Z.of_nat i)
                               (trailer_start + 16 * Z.of_nat i + 4) out) in
    o = sum_sizes (firstn i (map fst ets)) /\
    slice (0x20 + o) (0x20 + o + len entry) out = entry /\
    (i = 0%nat -> o = 0).
Proof.
  intros H Hi.
  pose proof (segb_version2_parts _ _ _ H)
    as (cts & ets & trailer & Hts & Hm & R & Hout & Ht & Hs & Hrec).
  destruct (mapM_nth _ _ _ _ _ Hm Hi) as ([entry ts] & Hn & He).
  exists ets, entry, ts.
  split; [assumption|]. split; [assumption|]. split; [assumption|].
  cbv zeta. rewrite (stored_offset _ _ _ _ _ _ H Hm Hn).
  split; [unfold offset_of; apply len_concat|]. split.
  - rewrite Hout.
    rewrite <- (len_header_v2_bytes (len es) cts).
    rewrite <- (Z.add_0_r (len (header_v2_bytes (len es) cts)
                           + offset_of i (map fst ets))) at 1.
    rewrite <- Z.add_assoc.
    rewrite (Z.add_assoc (len (header_v2_bytes (len es) cts))).
    rewrite (slice_entry _ trailer (map fst ets) i entry); try lia.
    + apply slice_all.
    + now apply (map_nth_error fst) in Hn.
  - intros ->. apply offset_of_0.
Qed.

Lemma trailer_offsets_v2_witness :
  segb_version2 sample_now entries_data = Ok sample_v2 /\
  nth_error entries_data 0 = Some sample_first /\
  exists ets entry ts,
    mapM entry_v2 entries_data = Ok ets /\
    entry_v2 sample_first = Ok (entry, ts) /\
    nth_error ets 0 = Some (entry, ts) /\
    let trailer_start := len sample_v2 - len entries_data * 16 in
    let o := decode_u32 (slice (trailer_start + 16 * Z.of_nat 0)
                               (trailer_start + 16 * Z.of_nat 0 + 4) sample_v2) in
    o = sum_sizes (firstn 0 (map fst ets)) /\
    slice (0x20 + o) (0x20 + o + len entry) sample_v2 = entry /\
    (0%nat = 0%nat -> o = 0).
Proof.
  split; [vm_compute; reflexivity|]. split; [reflexivity|].
  apply (trailer_offsets_v2 sample_now entries_data sample_v2 0 sample_first);
    vm_compute; reflexivity.
Defined.

Lemma offset_of_gap (entries : list bytes) (j k : nat) :
  Forall (fun entry => 8 <= len entry) entries ->
  (j < k <= length entries)%nat ->
  offset_of j entries + 8 <= offset_of k entries.
Proof.
  intros HF. induction k as [|k IH]; intros Hjk; [lia|].
  destruct (nth_error entries k) as [entry|] eqn:Hn.
  - rewrite (offset_of_S _ _ _ Hn).
    assert (Hlen : 8 <= len entry).
    { rewrite Forall_forall in HF. apply HF. eapply nth_error_In, Hn. }
    destruct (Nat.eq_dec j k) as [->|Hne]; [lia|].
    assert (offset_of j entries + 8 <= offset_of k entries) by (apply IH; lia).
    lia.
  - apply nth_error_None in Hn. lia.
Qed.

(** C10: the offsets stored in the trailer of a version 2 container are
    strictly increasing; from each offset to the next, and from the last
    offset to the start of the trailer, there are at least 8 bytes, also for
    a record without data; the gap less these 8 bytes is the data length
    plus a padding of at most 3 bytes. *)
Theorem trailer_offsets_increasing (now : datetime) (es : list entry_data)
    (out : bytes) :
  segb_version2 now es = Ok out ->
  let n := length es in
  let trailer_start := len out - len es * 16 in
  let stored (k : nat) :=
    decode_u32 (slice (trailer_start + 16 * Z.of_nat k)
                      (trailer_start + 16 * Z.of_nat k + 4) out) in
  let next (k : nat) :=
    if (S k <? n)%nat then stored (S k) else trailer_start - 0x20 in
  (forall j k : nat, (j < k < n)%nat -> stored j < stored k) /\
  (forall k : nat, (k < n)%nat -> stored k + 8 <= next k) /\
  (forall (k : nat) (e : entry_data) (data : bytes),
     nth_error es k = Some e -> data_bytes e = Ok data ->
     len data <= next k - stored k - 8 < len data + 4).
Proof.
  intros H.
  pose proof (segb_version2_parts _ _ _ H)
    as (cts & ets & trailer & Hts & Hm & R & Hout & Ht & Hs & Hrec).
  pose proof (mapM_length _ _ _ Hm) as Hlen.
  set (entries := map fst ets).
  assert (HF : Forall (fun entry => 8 <= len entry) entries).
  { unfold entries. apply Forall_map.
    eapply mapM_Forall; [|exact Hm].
    intros e [entry ts] He. cbn [fst].
    apply entry_v2_facts in He as (data & pad & _ & _ & Hp & _ & Hl & _).
    pose proof (len_nonneg data). lia. }
  assert (Hel : length entries = length es)
    by (unfold entries; now rewrite length_map).
  assert (Hst : forall k, (k < length es)%nat ->
            decode_u32 (slice (len out - len es * 16 + 16 * Z.of_nat k)
                              (len out - len es * 16 + 16 * Z.of_nat k + 4) out)
            = offset_of k entries).
  { intros k Hk.
    destruct (nth_error ets k) as [et|] eqn:Hn.
    - apply (stored_offset _ _ _ _ _ _ H Hm Hn).
    - apply nth_error_None in Hn. lia. }
  assert (Hnext : forall k, (k < length es)%nat ->
            (if (S k <? length es)%nat
             then decode_u32 (slice (len out - len es * 16 + 16 * Z.of_nat (S k))
                               (len out - len es * 16 + 16 * Z.of_nat (S k) + 4) out)
             else len out - len es * 16 - 0x20)
            = offset_of (S k) entries).
  { intros k Hk. destruct (Nat.ltb_spec (S k) (length es)) as [L|L].
    - now apply Hst.
    - replace (S k) with (length entries) by lia.
      rewrite offset_of_all. fold entries in Hs. lia. }
  cbv zeta. split; [|split].
  - intros j k Hjk. rewrite !Hst by lia.
    pose proof (offset_of_gap entries j k HF). lia.
  - intros k Hk. rewrite Hnext, Hst by lia.
    apply offset_of_gap; [assumption | lia].
  - intros k e data Hk Hd.
    assert (Hkn : (k < length es)%nat) by (apply nth_error_Some; now rewrite Hk).
    rewrite Hnext, Hst by assumption.
    destruct (mapM_nth _ _ _ _ _ Hm Hk) as ([entry ts] & Hn & He).
    apply entry_v2_facts in He as (data' & pad & _ & Hd' & Hp & _ & Hl & _).
    rewrite Hd in Hd'. apply Ok_inj in Hd'. subst data'.
    apply (map_nth_error fst) in Hn. fold entries in Hn. cbn [fst] in Hn.
    rewrite (offset_of_S _ _ _ Hn). lia.
Qed.

Lemma trailer_offsets_increasing_witness :
  segb_version2 sample_now entries_data = Ok sample_v2 /\
  let n := length entries_data in
  let trailer_start := len sample_v2 - len entries_data * 16 in
  let stored (k : nat) :=
    decode_u32 (slice (trailer_start + 16 * Z.of_nat k)
                      (trailer_start + 16 * Z.of_nat k + 4) sample_v2) in
  let next (k : nat) :=
    if (S k <? n)%nat then stored (S k) else trailer_start - 0x20 in
  (forall j k : nat, (j < k < n)%nat -> stored j < stored k) /\
  (forall k : nat, (k < n)%nat -> stored k + 8 <= next k) /\
  (forall (k : nat) (e : entry_data) (data : bytes),
     nth_error entries_data k = Some e -> data_bytes e = Ok data ->
     len data <= next k - stored k - 8 < len data + 4).
Proof.
  split; [vm_compute; reflexivity|].
  apply (trailer_offsets_increasing sample_now entries_data sample_v2).
  vm_compute. reflexivity.
Defined.

(* ================================================================== *)
(** * Two runs of the script *)

Lemma script_snd (now : datetime) (es : list entry_data) (b : bytes) :
  snd (script now es) = Some b -> segb_version2 now es = Ok b.
Proof.
  unfold script. destruct (segb_version1 es); cbn [snd]; [|discriminate].
  destruct (segb_version2 now es); [|discriminate].
  now intros [= ->].
Qed.

(** C9: two runs of the script on the same entries leave the same version 1
    file; when both write the version 2 file, the two have the same length
    and agree everywhere outside [0x08:0x10), where each holds the creation
    timestamp taken from that run's clock. *)
Theorem script_determinism (es : list entry_data) (now1 now2 : datetime) :
  fst (script now1 es) = fst (script now2 es) /\
  forall b1 b2 : bytes,
    snd (script now1 es) = Some b1 ->
    snd (script now2 es) = Some b2 ->
    len b1 = len b2 /\
    slice 0x00 0x08 b1 = slice 0x00 0x08 b2 /\
    skipn 0x10 b1 = skipn 0x10 b2 /\
    exists c1 c2,
      get_timestamp now1 = Ok c1 /\ get_timestamp now2 = Ok c2 /\
      slice 0x08 0x10 b1 = pack_d c1 /\ slice 0x08 0x10 b2 = pack_d c2.
Proof.
  split; [unfold script; now destruct (segb_version1 es)|].
  intros b1 b2 B1 B2.
  apply script_snd in B1, B2.
  apply segb_version2_inv in B1 as (c1 & ets & Hc1 & Hm & R & HF & ->).
  apply segb_version2_inv in B2 as (c2 & ets' & Hc2 & Hm' & _ & _ & ->).
  rewrite Hm in Hm'. apply Ok_inj in Hm'. subst ets'.
  set (rest := concat (map fst ets) ++ concat (map trailer_record (infos_from 0 ets))).
  split; [now rewrite !len_app, !len_header_v2_bytes|].
  unfold header_v2_bytes. rewrite <- !app_assoc.
  destruct (fields_4_4_8 SEGB (le_bytes 4 (len es)) (pack_d c1) (zeros 16 ++ rest))
    as (_ & _ & F1 & G1); try apply length_le_bytes; [reflexivity|].
  destruct (fields_4_4_8 SEGB (le_bytes 4 (len es)) (pack_d c2) (zeros 16 ++ rest))
    as (_ & _ & F2 & G2); try apply length_le_bytes; [reflexivity|].
  split.
  { rewrite !(app_assoc SEGB).
    assert (L : len (SEGB ++ le_bytes 4 (len es)) = 8)
      by (now rewrite len_app, len_le_bytes).
    rewrite <- L. now rewrite !slice_prefix. }
  split; [now rewrite G1, G2|].
  exists c1, c2. repeat split; assumption.
Qed.

Lemma script_determinism_witness :
  script sample_now entries_data = (Some sample_v1, Some sample_v2) /\
  script sample_later entries_data = (Some sample_v1, Some sample_v2_later) /\
  len sample_v2 = len sample_v2_later /\
  slice 0x00 0x08 sample_v2 = slice 0x00 0x08 sample_v2_later /\
  skipn 0x10 sample_v2 = skipn 0x10 sample_v2_later /\
  exists c1 c2,
    get_timestamp sample_now = Ok c1 /\ get_timestamp sample_later = Ok c2 /\
    slice 0x08 0x10 sample_v2 = pack_d c1 /\
    slice 0x08 0x10 sample_v2_later = pack_d c2.
Proof.
  split; [vm_compute; reflexivity|]. split; [vm_compute; reflexivity|].
  apply (proj2 (script_determinism entries_data sample_now sample_later));
    vm_compute; reflexivity.
Defined.

(** The clock does reach the output: the two sample runs differ. *)
Example clock_shows : sample_v2 <> sample_v2_later.
Proof. vm_compute. discriminate. Qed.

(* ================================================================== *)
(** * Round trip, version 1 *)

Lemma mapM_items_v1 (es : list entry_data) (entries : list bytes) :
  mapM entry_v1 es = Ok entries ->
  exists items,
    entries = map padded_v1 items /\
    mapM data_bytes es = Ok (map snd items) /\
    Forall (fun it => len (snd it) < 2 ^ 32) items.
Proof.
  revert entries. induction es as [|e r IH]; intros entries H; cbn [mapM] in H.
  - apply Ok_inj in H. subst. exists []. repeat split; constructor.
  - bind_inv H. bind_inv H. apply Ok_inj in H. subst entries.
    destruct (IH _ eq_refl) as (items & -> & Hd & HF).
    apply entry_v1_inv in E as (ts & data & Hts & Hdata & Hl & ->).
    exists ((ts, data) :: items). split; [reflexivity|]. split.
    + cbn [mapM map snd]. unfold data_bytes at 1. rewrite Hdata. cbn [bind].
      rewrite Hd. reflexivity.
    + constructor; [cbn [snd]; lia | assumption].
Qed.

Lemma len_padded_v1 (it : float64 * bytes) :
  exists pad, 0 <= pad < 8 /\
    len (padded_v1 it) = 0x20 + len (snd it) + pad /\
    len (padded_v1 it) mod 8 = 0.
Proof.
  unfold padded_v1.
  set (u := entry_header_v1 (fst it) (snd it) ++ snd it).
  exists ((8 - len u mod 8) mod 8).
  pose proof (pad_range (len u) 8 ltac:(lia)) as Hp.
  split; [assumption|].
  rewrite len_app, len_zeros by lia. split.
  - unfold u. rewrite len_app, len_entry_header_v1. reflexivity.
  - apply padded_multiple. lia.
Qed.

Lemma decode_entries_v1_unfold (fuel : nat) (b : bytes) (end_offset off : Z) :
  decode_entries_v1 (S fuel) b end_offset off =
  if end_offset <=? off then Decoded []
  else if len b <? off + 0x20 then Failed Truncated
  else
    let length := decode_u32 (slice off (off + 0x04) b) in
    let st := decode_i32 (slice (off + 0x04) (off + 0x08) b) in
    let ts1 := decode_f64 (slice (off + 0x08) (off + 0x10) b) in
    let ts2 := decode_f64 (slice (off + 0x10) (off + 0x18) b) in
    let checksum := decode_u32 (slice (off + 0x18) (off + 0x1C) b) in
    let stop := off + 0x20 + length in
    if len b <? stop then Failed Truncated
    else
      let data := slice (off + 0x20) stop b in
      let valid := binascii_crc32 data =? checksum in
      let next := stop + (8 - stop mod 8) mod 8 in
      match decode_entries_v1 fuel b end_offset next with
      | Decoded rs => Decoded (mk_record data st ts1 ts2 checksum valid :: rs)
      | Failed e => Failed e
      end.
Proof. reflexivity. Qed.

Lemma decode_entries_v1_end (fuel : nat) (b : bytes) (end_offset off : Z) :
  end_offset <= off -> decode_entries_v1 fuel b end_offset off = Decoded [].
Proof.
  intros H. destruct fuel; cbn [decode_entries_v1];
    destruct (Z.leb_spec end_offset off); try reflexivity; lia.
Qed.

Lemma decode_entries_v1_ok (items : list (float64 * bytes)) :
  Forall (fun it => len (snd it) < 2 ^ 32) items ->
  forall (pre : bytes) (fuel : nat),
    len pre mod 8 = 0 ->
    (length items <= fuel)%nat ->
    let b := pre ++ concat (map padded_v1 items) in
    exists recs,
      decode_entries_v1 fuel b (len b) (len pre) = Decoded recs /\
      map rec_data recs = map snd items /\
      Forall (fun r => rec_valid r = true) recs.
Proof.
  induction 1 as [|[ts data] items Hl HF IH]; intros pre fuel Hpre Hfuel b.
  - exists []. subst b. cbn [map concat]. rewrite app_nil_r.
    rewrite decode_entries_v1_end by lia. repeat split; constructor.
  - destruct fuel as [|fuel]; [simpl in Hfuel; lia|].
    cbn [snd] in Hl. pose proof (len_nonneg data) as Hd0.
    destruct (len_padded_v1 (ts, data)) as (pad & Hp & Hlen & Hmod).
    cbn [snd] in Hlen.
    assert (Hb : b = (pre ++ padded_v1 (ts, data)) ++ concat (map padded_v1 items)).
    { subst b. cbn [map concat]. now rewrite <- app_assoc. }
    destruct (IH (pre ++ padded_v1 (ts, data)) fuel) as (recs & Hdec & Hdata & Hval).
    { rewrite len_app, Z.add_mod, Hpre, Hmod by lia. reflexivity. }
    { simpl in Hfuel. lia. }
    rewrite <- Hb in Hdec. rewrite len_app, Hlen in Hdec.
    set (tail := zeros ((8 - len (entry_header_v1 ts data ++ data) mod 8) mod 8)
                 ++ concat (map padded_v1 items)).
    assert (Hb' : b = pre ++ entry_header_v1 ts data ++ data ++ tail).
    { subst b tail. cbn [map concat]. unfold padded_v1. cbn [fst snd].
      now rewrite <- !app_assoc. }
    assert (Hlb : len b = len pre + 0x20 + len data + len tail).
    { rewrite Hb', !len_app, len_entry_header_v1. lia. }
    pose proof (len_nonneg tail) as Ht0.
    assert (Htail : pad <= len tail).
    { rewrite Hb, !len_app, Hlen in Hlb.
      pose proof (len_nonneg (concat (map padded_v1 items))). lia. }
    destruct (entry_header_v1_fields ts data (data ++ tail))
      as (F0 & F1 & F2 & F3 & F4 & F5 & _).
    rewrite decode_entries_v1_unfold.
    destruct (Z.leb_spec (len b) (len pre)) as [L|_]; [lia|].
    destruct (Z.ltb_spec (len b) (len pre + 0x20)) as [L|_]; [lia|].
    cbv zeta.
    assert (S0 : slice (len pre) (len pre + 0x04) b = le_bytes 4 (len data)).
    { rewrite Hb'. rewrite <- (Z.add_0_r (len pre)) at 1.
      rewrite slice_app_r by lia. exact F0. }
    assert (S4 : slice (len pre + 0x18) (len pre + 0x1C) b
                 = le_bytes 4 (binascii_crc32 data)).
    { rewrite Hb'. rewrite slice_app_r by lia. exact F4. }
    rewrite S0, S4.
    rewrite !decode_u32_le_bytes by (try apply binascii_crc32_range; lia).
    destruct (Z.ltb_spec (len b) (len pre + 0x20 + len data)) as [L|_]; [lia|].
    assert (SD : slice (len pre + 0x20) (len pre + 0x20 + len data) b = data).
    { rewrite Hb'. rewrite <- Z.add_assoc, slice_app_r by lia.
      rewrite (slice_shift 0x20 0 (len data)) by (try apply len_entry_header_v1; lia).
      apply slice_prefix. }
    rewrite SD, Z.eqb_refl.
    assert (Hnext : len pre + 0x20 + len data
                    + (8 - (len pre + 0x20 + len data) mod 8) mod 8
                    = len pre + (0x20 + len data + pad)).
    { pose proof (padded_multiple (len pre + 0x20 + len data) 8 ltac:(lia)) as Hm1.
      pose proof (pad_range (len pre + 0x20 + len data) 8 ltac:(lia)) as Hr1.
      set (p1 := (8 - (len pre + 0x20 + len data) mod 8) mod 8) in *.
      rewrite Hlen in Hmod.
      assert (Hsum : (len pre + (0x20 + len data + pad)) mod 8 = 0).
      { rewrite Z.add_mod, Hpre, Hmod by lia. reflexivity. }
      apply Z.mod_divide in Hm1; [|lia]. apply Z.mod_divide in Hsum; [|lia].
      destruct Hm1 as [q1 Hq1]. destruct Hsum as [q2 Hq2]. lia. }
    rewrite Hnext, Hdec.
    eexists. split; [reflexivity|]. cbn [map rec_data snd]. split.
    + now rewrite Hdata.
    + constructor; [reflexivity | assumption].
Qed.

Lemma bytes_eqb_refl (b : bytes) : bytes_eqb b b = true.
Proof. unfold bytes_eqb. destruct (list_eq_dec byte_eq_dec b b); congruence. Qed.

Lemma length_concat_ge {A : Type} (f : A -> bytes) (l : list A) :
  (forall x, 1 <= len (f x)) -> len l <= len (concat (map f l)).
Proof.
  intros Hf. induction l as [|x r IH]; [reflexivity|].
  cbn [map concat]. rewrite len_app. specialize (Hf x).
  unfold len in *. cbn [length]. lia.
Qed.

Lemma decode_v1_segb_version1 (es : list entry_data) (out : bytes) :
  segb_version1 es = Ok out ->
  exists recs,
    decode_v1 out = Decoded recs /\
    mapM data_bytes es = Ok (map rec_data recs) /\
    Forall (fun r => rec_valid r = true) recs.
Proof.
  intros H. apply segb_version1_inv in H as (entries & Hm & R & ->).
  apply mapM_items_v1 in Hm as (items & -> & Hd & HF).
  set (E := 0x38 + len (concat (map padded_v1 items))) in *.
  set (out := header_v1 E ++ concat (map padded_v1 items)).
  assert (Hlen : len out = E).
  { unfold out. rewrite len_app, len_header_v1. reflexivity. }
  assert (Hfuel : (length items <= length out)%nat).
  { assert (len items <= len (concat (map padded_v1 items))).
    { apply length_concat_ge. intros it.
      destruct (len_padded_v1 it) as (pad & Hp & Hl & _).
      pose proof (len_nonneg (snd it)). lia. }
    unfold E, len in *. lia. }
  destruct (decode_entries_v1_ok items HF (header_v1 E) (length out))
    as (recs & Hdec & Hdata & Hval); [now rewrite len_header_v1 | assumption |].
  fold out in Hdec. rewrite len_header_v1, Hlen in Hdec.
  exists recs. split; [|split; [|assumption]].
  - unfold decode_v1.
    destruct (header_v1_fields E (concat (map padded_v1 items))) as (F0 & _ & F2).
    fold out in F0, F2. rewrite F0, F2, bytes_eqb_refl.
    destruct (Z.ltb_spec (len out) 0x38) as [L|_].
    { pose proof (len_nonneg (concat (map padded_v1 items))). unfold E in *. lia. }
    cbn [orb negb]. rewrite decode_u32_le_bytes by assumption. exact Hdec.
  - now rewrite Hdata.
Qed.

(* ================================================================== *)
(** * Round trip, version 2 *)

Lemma mapM_items_v2 (es : list entry_data) (ets : list (bytes * float64)) :
  mapM entry_v2 es = Ok ets ->
  exists datas,
    map fst ets = map padded_v2 datas /\
    mapM data_bytes es = Ok datas.
Proof.
  revert ets. induction es as [|e r IH]; intros ets H; cbn [mapM] in H.
  - apply Ok_inj in H. subst. exists []. split; reflexivity.
  - bind_inv H. bind_inv H. apply Ok_inj in H. subst ets.
    destruct (IH _ eq_refl) as (datas & Hf & Hd). destruct a as [entry ts].
    apply entry_v2_inv in E as (data & Hts & Hdata & ->).
    exists (data :: datas). split.
    + cbn [map fst]. now rewrite Hf.
    + cbn [mapM]. unfold data_bytes at 1. rewrite Hdata. cbn [bind].
      rewrite Hd. reflexivity.
Qed.

Lemma offsets_infos_from (off : Z) (ets : list (bytes * float64)) :
  map offset (infos_from off ets) = offsets_from off (map fst ets).
Proof.
  revert off. induction ets as [|et r IH]; intros off; [reflexivity|].
  cbn [infos_from map offsets_from offset]. now rewrite IH.
Qed.

Lemma len_padded_v2 (data : bytes) :
  exists pad, 0 <= pad < 4 /\
    padded_v2 data = entry_body_v2 data ++ zeros pad /\
    len (padded_v2 data) = 8 + len data + pad.
Proof.
  unfold padded_v2.
  exists ((4 - len (entry_body_v2 data) mod 4) mod 4).
  pose proof (pad_range (len (entry_body_v2 data)) 4 ltac:(lia)) as Hp.
  split; [assumption|]. split; [reflexivity|].
  rewrite len_app, len_zeros, len_entry_body_v2 by lia. reflexivity.
Qed.

Lemma drop_zeros_repeat (n k : nat) (l : bytes) :
  (k <= n)%nat -> hd x01 l <> x00 ->
  drop_zeros n (repeat x00 k ++ l) = l.
Proof.
  revert k. induction n as [|n IH]; intros k Hk Hl.
  - replace k with 0%nat by lia. simpl. now destruct l.
  - destruct k as [|k].
    + cbn [repeat app]. destruct l as [|x r]; [reflexivity|].
      cbn [hd] in Hl. cbn [drop_zeros]. destruct x; try reflexivity.
      now elim Hl.
    + cbn [repeat app drop_zeros]. apply IH; [lia | assumption].
Qed.

Lemma hd_rev_last (l : bytes) (d : byte) : hd d (rev l) = last l d.
Proof.
  induction l as [|x r IH] using rev_ind; [reflexivity|].
  now rewrite rev_unit, last_last.
Qed.

Lemma rev_repeat_x00 (n : nat) : rev (repeat x00 n) = repeat x00 n.
Proof.
  induction n as [|n IH]; [reflexivity|].
  cbn [repeat rev]. rewrite IH. symmetry. apply repeat_cons.
Qed.

Lemma strip_padding_zeros (data : bytes) (pad : Z) :
  0 <= pad < 4 -> no_trailing_zero data ->
  strip_padding (data ++ zeros pad) = data.
Proof.
  intros Hp Hnz. unfold strip_padding, zeros.
  rewrite rev_app_distr, rev_repeat_x00, drop_zeros_repeat.
  - apply rev_involutive.
  - lia.
  - now rewrite hd_rev_last.
Qed.

Lemma decode_entries_v2_ok (datas : list bytes) :
  Forall no_trailing_zero datas ->
  forall (pre : bytes) (infos : list entry_info),
    map offset infos = offsets_from (len pre) (map padded_v2 datas) ->
    let region := pre ++ concat (map padded_v2 datas) in
    exists recs,
      decode_entries_v2 region infos = Decoded recs /\
      map rec_data recs = datas /\
      Forall (fun r => rec_valid r = true) recs.
Proof.
  induction 1 as [|data datas Hnz HF IH]; intros pre infos Hoff region.
  - destruct infos; [|discriminate Hoff].
    exists []. repeat split; constructor.
  - destruct infos as [|i infos]; [discriminate Hoff|].
    cbn [map offsets_from] in Hoff. injection Hoff as Hi Hrest.
    destruct (len_padded_v2 data) as (pad & Hp & Hpd & Hlen).
    pose proof (len_nonneg data) as Hd0.
    assert (Hr : region = (pre ++ padded_v2 data) ++ concat (map padded_v2 datas)).
    { subst region. cbn [map concat]. now rewrite <- app_assoc. }
    destruct (IH (pre ++ padded_v2 data) infos) as (recs & Hdec & Hdata & Hval).
    { now rewrite len_app. }
    rewrite <- Hr in Hdec.
    set (tail := zeros pad ++ concat (map padded_v2 datas)).
    assert (Hr' : region = pre ++ entry_body_v2 data ++ tail).
    { subst region tail. cbn [map concat]. rewrite Hpd. now rewrite <- !app_assoc. }
    assert (Hlr : len region = len pre + len (padded_v2 data)
                              + len (concat (map padded_v2 datas))).
    { rewrite Hr, !len_app. reflexivity. }
    pose proof (len_nonneg (concat (map padded_v2 datas))) as Hc0.
    assert (Hnext : match infos with
                    | [] => len region
                    | j :: _ => offset j
                    end = len pre + len (padded_v2 data)).
    { destruct infos as [|j infos].
      - destruct datas; [|discriminate Hrest].
        rewrite Hlr. cbn [map concat]. change (len (@nil byte)) with 0. lia.
      - destruct datas as [|d datas']; [discriminate Hrest|].
        cbn [map offsets_from] in Hrest. injection Hrest as Hj _. exact Hj. }
    cbn [decode_entries_v2]. rewrite Hnext, Hi, Hdec.
    destruct (Z.ltb_spec (len pre + len (padded_v2 data)) (len pre + 8)) as [L|_];
      [lia|].
    destruct (Z.ltb_spec (len region) (len pre + len (padded_v2 data))) as [L|_];
      [lia|].
    cbn [orb].
    destruct (entry_body_v2_fields data tail) as (F0 & _ & _).
    assert (S0 : slice (len pre) (len pre + 4) region
                 = le_bytes 4 (binascii_crc32 data)).
    { rewrite Hr'. rewrite <- (Z.add_0_r (len pre)) at 1.
      rewrite slice_app_r by lia. exact F0. }
    assert (SD : strip_padding (slice (len pre + 8) (len pre + len (padded_v2 data))
                                      region) = data).
    { rewrite Hr. rewrite slice_app_l by (rewrite len_app; lia).
      rewrite slice_app_r by lia. rewrite Hpd at 2. rewrite Hlen.
      unfold entry_body_v2. rewrite <- !app_assoc, app_assoc.
      replace (slice 8 (8 + len data + pad)) with (slice (8 + 0) (8 + (len data + pad)))
        by (f_equal; lia).
      rewrite (slice_shift 8 0 (len data + pad)).
      - rewrite <- (len_zeros pad) at 1 by lia. rewrite <- len_app, slice_all.
        now apply strip_padding_zeros.
      - rewrite len_app, len_le_bytes, len_zeros by lia. reflexivity.
      - lia. }
    rewrite S0, SD, decode_u32_le_bytes by apply binascii_crc32_range.
    rewrite Z.eqb_refl.
    eexists. split; [reflexivity|]. cbn [map rec_data]. split.
    + now rewrite Hdata.
    + constructor; [reflexivity | assumption].
Qed.

Lemma parse_trailer_offsets (infos : list entry_info) (tail : bytes) :
  Forall packable infos ->
  map offset (parse_trailer (length infos)
                            (concat (map trailer_record infos) ++ tail))
  = map offset infos.
Proof.
  induction 1 as [|i infos [Ho Hs] HF IH]; [reflexivity|].
  cbn [length parse_trailer map concat offset].
  rewrite <- app_assoc.
  set (rest := concat (map trailer_record infos) ++ tail) in *.
  unfold trailer_record. rewrite <- !app_assoc.
  destruct (fields_4_4_8 (le_bytes 4 (offset i)) (le_bytes 4 (state i))
              (pack_d (timestamp i)) rest)
    as (F0 & _ & _ & G); try apply length_le_bytes.
  rewrite F0, G. subst rest. rewrite IH, decode_u32_le_bytes by assumption.
  reflexivity.
Qed.

Lemma decode_v2_segb_version2 (now : datetime) (es : list entry_data) (out : bytes)
    (datas : list bytes) :
  segb_version2 now es = Ok out ->
  mapM data_bytes es = Ok datas ->
  Forall no_trailing_zero datas ->
  exists recs,
    decode_v2 out = Decoded recs /\
    map rec_data recs = datas /\
    Forall (fun r => rec_valid r = true) recs.
Proof.
  intros H Hd Hnz.
  apply segb_version2_inv in H as (cts & ets & Hts & Hm & R & HF & ->).
  destruct (mapM_items_v2 _ _ Hm) as (datas' & Hf & Hd').
  rewrite Hd in Hd'. apply Ok_inj in Hd'. subst datas'.
  set (infos := infos_from 0 ets) in *.
  set (region := concat (map fst ets)).
  set (trailer := concat (map trailer_record infos)).
  set (out := header_v2_bytes (len es) cts ++ region ++ trailer).
  assert (Hn : len infos = len es).
  { unfold len, infos. rewrite infos_from_length, (mapM_length _ _ _ Hm). reflexivity. }
  assert (Hlt : len trailer = len es * 16).
  { unfold trailer. rewrite len_concat_records. lia. }
  assert (Hlo : len out = 0x20 + len region + len es * 16).
  { unfold out. rewrite !len_app, len_header_v2_bytes. lia. }
  pose proof (len_nonneg region) as Hr0.
  destruct (header_v2_fields (len es) cts (region ++ trailer)) as (F0 & F1 & _).
  fold out in F0, F1.
  unfold decode_v2.
  destruct (Z.ltb_spec (len out) 0x20) as [L|_]; [lia|].
  rewrite F0, bytes_eqb_refl, F1. cbn [negb].
  rewrite decode_u32_le_bytes by assumption.
  destruct (Z.ltb_spec (len out) (0x20 + len es * 16)) as [L|_]; [lia|].
  assert (SR : slice 0x20 (len out - len es * 16) out = region).
  { replace (len out - len es * 16) with (0x20 + len region) by lia.
    unfold out.
    rewrite (slice_shift 0x20 0 (len region)) by (try apply len_header_v2_bytes; lia).
    apply slice_prefix. }
  assert (ST : skipn (Z.to_nat (len out - len es * 16)) out = trailer).
  { replace (len out - len es * 16)
      with (len (header_v2_bytes (len es) cts ++ region))
      by (rewrite len_app, len_header_v2_bytes; lia).
    unfold out. rewrite app_assoc. apply skipn_len_app. }
  rewrite SR, ST.
  replace (Z.to_nat (len es)) with (length infos) by (unfold len in *; lia).
  destruct (decode_entries_v2_ok datas Hnz []
              (parse_trailer (length infos) trailer))
    as (recs & Hdec & Hdata & Hval).
  { unfold trailer. rewrite <- (app_nil_r (concat (map trailer_record infos))).
    rewrite parse_trailer_offsets by assumption.
    unfold infos. rewrite offsets_infos_from, Hf. reflexivity. }
  cbn [app] in Hdec. rewrite <- Hf in Hdec. fold region in Hdec.
  exists recs. repeat split; assumption.
Qed.

(* ================================================================== *)
(** * Round trip *)

(** Version 2 stores no data length, and the CRC32 register of "wnnNRt" is
    zero, so that zero bytes after it leave the checksum unchanged: two
    records with different data are written as the same container.  No
    reader can return the data of both. *)
Lemma encode_v2_not_injective :
  encode V2 sample_now [zero_ended] = encode V2 sample_now [zero_ended_longer] /\
  encode V2 sample_now [zero_ended] = Ok zero_ended_v2 /\
  data_bytes zero_ended <> data_bytes zero_ended_longer.
Proof.
  split; [vm_compute; reflexivity|]. split; [vm_compute; reflexivity|].
  vm_compute. discriminate.
Qed.

(** C1, as stated, fails for version 2: the record with text "wnnNRt\x00" is
    written, and the reader returns the data without its last byte. *)
Lemma roundtrip_counterexample :
  encode V2 sample_now [zero_ended] = Ok zero_ended_v2 /\
  data_bytes zero_ended = Ok zero_ended_data /\
  exists r,
    decode V2 zero_ended_v2 = Decoded [r] /\
    rec_data r <> zero_ended_data.
Proof.
  split; [vm_compute; reflexivity|]. split; [vm_compute; reflexivity|].
  eexists. split; [vm_compute; reflexivity|].
  vm_compute. discriminate.
Qed.

(** C1 (amended): for version 1, and for version 2 when no record's data
    ends in a zero byte, reading the container written for a sequence of
    records returns records with the same data bytes in the same order (and
    every checksum verifies). *)
Theorem roundtrip_data (v : version) (now : datetime) (es : list entry_data)
    (out : bytes) (datas : list bytes) :
  encode v now es = Ok out ->
  mapM data_bytes es = Ok datas ->
  (v = V2 -> Forall no_trailing_zero datas) ->
  exists recs,
    decode v out = Decoded recs /\
    map rec_data recs = datas /\
    Forall (fun r => rec_valid r = true) recs.
Proof.
  destruct v; cbn [encode decode]; intros H Hd Hnz.
  - apply decode_v1_segb_version1 in H as (recs & Hdec & Hdata & Hval).
    rewrite Hd in Hdata. apply Ok_inj in Hdata.
    exists recs. repeat split; [assumption | now symmetry | assumption].
  - apply (decode_v2_segb_version2 now es out datas H Hd). now apply Hnz.
Qed.

Lemma roundtrip_witness :
  encode V2 sample_now entries_data = Ok sample_v2 /\
  mapM data_bytes entries_data = Ok sample_datas /\
  (V2 = V2 -> Forall no_trailing_zero sample_datas) /\
  exists recs,
    decode V2 sample_v2 = Decoded recs /\
    map rec_data recs = sample_datas /\
    Forall (fun r => rec_valid r = true) recs.
Proof.
  assert (Hnz : V2 = V2 -> Forall no_trailing_zero sample_datas).
  { intros _. repeat constructor; vm_compute; discriminate. }
  split; [vm_compute; reflexivity|]. split; [vm_compute; reflexivity|].
  split; [exact Hnz|].
  apply (roundtrip_data V2 sample_now entries_data sample_v2 sample_datas);
    [vm_compute; reflexivity | vm_compute; reflexivity | exact Hnz].
Defined.

(* ================================================================== *)
(** * The version 1 header and the ends of the containers *)

(** X1: a version 1 container starts with a header of 56 bytes: after the
    end offset come 48 zero bytes and the magic SEGB at 0x34; the entries
    follow from 0x38 to the end of the file. *)
Theorem header_v1_layout (es : list entry_data) (out : bytes) :
  segb_version1 es = Ok out ->
  exists entries,
    mapM entry_v1 es = Ok entries /\
    0x38 <= len out /\
    slice 0x04 0x34 out = zeros 0x30 /\
    slice 0x34 0x38 out = SEGB /\
    slice 0x38 (len out) out = concat entries.
Proof.
  intros H. apply segb_version1_inv in H as (entries & Hm & R & ->).
  exists entries. split; [assumption|].
  destruct (header_v1_fields (0x38 + len (concat entries)) (concat entries))
    as (_ & F1 & F2).
  rewrite F1, F2, len_app, len_header_v1.
  pose proof (len_nonneg (concat entries)).
  split; [lia|]. split; [reflexivity|]. split; [reflexivity|].
  rewrite (slice_shift 0x38 0 (len (concat entries)))
    by (try apply len_header_v1; lia).
  apply slice_all.
Qed.

Lemma header_v1_layout_witness :
  segb_version1 entries_data = Ok sample_v1 /\
  exists entries,
    mapM entry_v1 entries_data = Ok entries /\
    0x38 <= len sample_v1 /\
    slice 0x04 0x34 sample_v1 = zeros 0x30 /\
    slice 0x34 0x38 sample_v1 = SEGB /\
    slice 0x38 (len sample_v1) sample_v1 = concat entries.
Proof.
  split; [vm_compute; reflexivity|].
  apply (header_v1_layout entries_data sample_v1). vm_compute. reflexivity.
Defined.

(** X2: with no entries the script writes a version 1 file that is the
    56-byte header alone, its end offset 56, and a version 2 file that is the
    32-byte header alone, its entry count 0 and without trailer. *)
Theorem no_entries (now : datetime) (cts : float64) :
  get_timestamp now = Ok cts ->
  script now []
  = (Some (le_bytes 4 0x38 ++ zeros 0x30 ++ SEGB),
     Some (SEGB ++ le_bytes 4 0 ++ pack_d cts ++ zeros 16)).
Proof.
  intros H. unfold script.
  rewrite (segb_version1_ok [] [] eq_refl) by reflexivity.
  rewrite (segb_version2_ok now [] cts [] H eq_refl) by (try constructor; reflexivity).
  cbn [map concat infos_from app]. rewrite !app_nil_r. reflexivity.
Qed.

Lemma no_entries_witness :
  get_timestamp sample_now = Ok (F64 0x41C656116B8FCD68) /\
  script sample_now []
  = (Some (le_bytes 4 0x38 ++ zeros 0x30 ++ SEGB),
     Some (SEGB ++ le_bytes 4 0 ++ pack_d (F64 0x41C656116B8FCD68) ++ zeros 16)).
Proof.
  split; [vm_compute; reflexivity|].
  apply (no_entries sample_now). vm_compute. reflexivity.
Defined.

Lemma offset_of_aligned (a : Z) (entries : list bytes) (i : nat) :
  0 < a ->
  Forall (fun entry => len entry mod a = 0) entries ->
  offset_of i entries mod a = 0.
Proof.
  intros Ha HF. induction i as [|i IH]; [now rewrite offset_of_0, Z.mod_0_l by lia|].
  destruct (nth_error entries i) as [entry|] eqn:Hn.
  - rewrite (offset_of_S _ _ _ Hn).
    assert (He : len entry mod a = 0).
    { rewrite Forall_forall in HF. apply HF. eapply nth_error_In, Hn. }
    rewrite Z.add_mod, IH, He by lia. now rewrite Z.mod_0_l by lia.
  - apply nth_error_None in Hn. unfold offset_of in *.
    now rewrite firstn_all2 in * by lia.
Qed.

(** X3: in either version every entry starts at a file offset that is a
    multiple of the alignment (8 for version 1, 4 for version 2), and so
    does the end of the file. *)
Theorem entries_aligned (v : version) (now : datetime) (es : list entry_data)
    (out : bytes) :
  encode v now es = Ok out ->
  exists entries,
    mapM (entry_of v) es = Ok entries /\
    (forall i : nat, (header_size v + offset_of i entries) mod alignment v = 0) /\
    len out mod alignment v = 0.
Proof.
  intros H.
  assert (Ha : 0 < alignment v) by (destruct v; reflexivity).
  assert (Hh : header_size v mod alignment v = 0) by (destruct v; reflexivity).
  assert (HF : forall entries, mapM (entry_of v) es = Ok entries ->
                 Forall (fun entry => len entry mod alignment v = 0) entries).
  { intros entries Hm. eapply mapM_Forall; [|exact Hm].
    intros e entry He.
    apply entry_facts in He as (ts & data & pad & _ & _ & _ & _ & _ & _ & Hmod).
    exact Hmod. }
  assert (Hoff : forall entries i, mapM (entry_of v) es = Ok entries ->
                 (header_size v + offset_of i entries) mod alignment v = 0).
  { intros entries i Hm.
    rewrite Z.add_mod, Hh, (offset_of_aligned _ _ _ Ha (HF _ Hm)) by lia.
    now rewrite Z.mod_0_l by lia. }
  destruct v; cbn [encode] in H.
  - apply segb_version1_inv in H as (entries & Hm & R & ->).
    exists entries. split; [assumption|]. split; [intros i; now apply Hoff|].
    rewrite len_app, len_header_v1, <- offset_of_all. now apply Hoff.
  - apply segb_version2_inv in H as (cts & ets & Hts & Hm & R & HF2 & ->).
    apply mapM_fst in Hm.
    exists (map fst ets). split; [assumption|]. split; [intros i; now apply Hoff|].
    rewrite !len_app, len_header_v2_bytes, len_concat_records, <- offset_of_all.
    rewrite Z.add_assoc, Z.add_mod, (Hoff _ _ Hm) by (cbn; lia).
    cbn [alignment]. replace (16 * len (infos_from 0 ets))
      with (len (infos_from 0 ets) * 4 * 4) by lia.
    now rewrite Z.mod_mul by lia.
Qed.

Lemma entries_aligned_witness :
  encode V1 sample_now entries_data = Ok sample_v1 /\
  exists entries,
    mapM (entry_of V1) entries_data = Ok entries /\
    (forall i : nat, (header_size V1 + offset_of i entries) mod alignment V1 = 0) /\
    len sample_v1 mod alignment V1 = 0.
Proof.
  split; [vm_compute; reflexivity|].
  apply (entries_aligned V1 sample_now entries_data sample_v1).
  vm_compute. reflexivity.
Defined.

(* ================================================================== *)
(** * Texts and dates the script cannot write *)

Lemma utf8_char_cases (c : Z) :
  (bad_code_point c = true /\ utf8_char c = Raise UnicodeEncodeError) \/
  (bad_code_point c = false /\
   exists b, utf8_char c = Ok b /\ 1 <= len b <= 4 /\
             (c < 0x80 -> b = [byte_of_Z c])).
Proof.
  unfold bad_code_point, utf8_char.
  destruct (c <? 0) eqn:E0; [left; split; reflexivity|].
  destruct (0x10FFFF <? c) eqn:E1; [left; split; reflexivity|].
  cbn [orb].
  destruct (c <? 0x80) eqn:E2.
  { right. assert (Hs : (0xD800 <=? c) && (c <=? 0xDFFF) = false).
    { apply andb_false_iff. left. lia. }
    rewrite Hs. split; [reflexivity|]. eexists. split; [reflexivity|].
    split; [cbn; lia | reflexivity]. }
  destruct (c <? 0x800) eqn:E3.
  { right. assert (Hs : (0xD800 <=? c) && (c <=? 0xDFFF) = false).
    { apply andb_false_iff. left. lia. }
    rewrite Hs. split; [reflexivity|]. eexists. split; [reflexivity|].
    split; [cbn; lia | lia]. }
  destruct (c <? 0x10000) eqn:E4.
  { destruct ((0xD800 <=? c) && (c <=? 0xDFFF)) eqn:Hs.
    - left. split; reflexivity.
    - right. split; [reflexivity|]. eexists. split; [reflexivity|].
      split; [cbn; lia | lia]. }
  right. assert (Hs : (0xD800 <=? c) && (c <=? 0xDFFF) = false).
  { apply andb_false_iff. right. lia. }
  rewrite Hs. split; [reflexivity|]. eexists. split; [reflexivity|].
  split; [cbn; lia | lia].
Qed.

Lemma encode_utf8_ok (t : str) (data : bytes) :
  encode_utf8 t = Ok data ->
  Forall (fun c => bad_code_point c = false) t /\
  len t <= len data <= 4 * len t /\
  (Forall (fun c => c < 0x80) t -> data = map byte_of_Z t).
Proof.
  revert data. induction t as [|c r IH]; intros data H; cbn [encode_utf8] in H.
  - apply Ok_inj in H. subst data. repeat split; try constructor; cbn; lia.
  - bind_inv H. bind_inv H. apply Ok_inj in H. subst data.
    destruct (IH _ eq_refl) as (HF & Hl & Ha).
    destruct (utf8_char_cases c) as [[_ Hc]|(Hb & b & Hc & Hlb & Hasc)];
      rewrite Hc in E; [discriminate E|].
    apply Ok_inj in E. subst a.
    split; [constructor; assumption|]. split.
    + rewrite len_app. unfold len in *. cbn [length]. lia.
    + intros HA. inversion HA as [|? ? Hc1 Hr]; subst.
      rewrite (Hasc Hc1), (Ha Hr). reflexivity.
Qed.

Lemma encode_utf8_raises (t : str) :
  Exists (fun c => bad_code_point c = true) t ->
  exists x, encode_utf8 t = Raise x.
Proof.
  intros H. destruct (encode_utf8 t) as [data|x] eqn:E; [|eauto].
  apply encode_utf8_ok in E as (HF & _).
  apply Exists_exists in H as (c & Hin & Hc).
  rewrite Forall_forall in HF. rewrite (HF _ Hin) in Hc. discriminate Hc.
Qed.

Lemma mapM_In {A B : Type} (f : A -> result B) (l : list A) (l' : list B)
    (x : A) :
  mapM f l = Ok l' -> In x l -> exists y, f x = Ok y.
Proof.
  intros Hm Hin. apply In_nth_error in Hin as (i & Hi).
  destruct (mapM_nth _ _ _ _ _ Hm Hi) as (y & _ & Hy). eauto.
Qed.

(** X4: when some entry has a naive date (no tzinfo) or a text with a code
    point that UTF-8 cannot encode (a lone surrogate), the script raises
    before it writes either file. *)
Theorem unwritable_entry (now : datetime) (es : list entry_data) (e : entry_data) :
  In e es ->
  tzinfo (date e) = None \/ Exists (fun c => bad_code_point c = true) (text e) ->
  script now es = (None, None).
Proof.
  intros Hin Hbad. unfold script.
  destruct (segb_version1 es) as [out|x] eqn:E; [exfalso|reflexivity].
  apply segb_version1_inv in E as (entries & Hm & _).
  destruct (mapM_In _ _ _ _ Hm Hin) as (entry & He).
  apply entry_v1_inv in He as (ts & data & Hts & Hd & _).
  destruct Hbad as [Hn|Hx].
  - apply get_timestamp_elapsed in Hts as (off & Htz & _). congruence.
  - apply encode_utf8_raises in Hx as (x & Hx). congruence.
Qed.

Lemma unwritable_entry_witness :
  In surrogate_entry (sample_entry :: surrogate_entry :: nil) /\
  (tzinfo (date surrogate_entry) = None \/
   Exists (fun c => bad_code_point c = true) (text surrogate_entry)) /\
  script sample_now (sample_entry :: surrogate_entry :: nil) = (None, None).
Proof.
  assert (Hin : In surrogate_entry (sample_entry :: surrogate_entry :: nil))
    by (right; left; reflexivity).
  assert (Hbad : tzinfo (date surrogate_entry) = None \/
                 Exists (fun c => bad_code_point c = true) (text surrogate_entry)).
  { right. apply Exists_cons_tl, Exists_cons_hd. reflexivity. }
  split; [exact Hin|]. split; [exact Hbad|].
  exact (unwritable_entry sample_now _ surrogate_entry Hin Hbad).
Defined.

(** X5: the length field of an entry counts UTF-8 bytes, not characters:
    the data has between one and four bytes per code point of the text, and
    for a text of ASCII characters the data bytes are the characters. *)
Theorem data_length_bounds (e : entry_data) (data : bytes) :
  data_bytes e = Ok data ->
  len (text e) <= len data <= 4 * len (text e) /\
  (Forall (fun c => c < 0x80) (text e) -> data = map byte_of_Z (text e)).
Proof.
  unfold data_bytes. intros H. apply encode_utf8_ok in H as (_ & Hl & Ha).
  split; assumption.
Qed.

Lemma data_length_bounds_witness :
  data_bytes accent_entry
  = Ok ["s"; "195"; "169"; "a"; "n"; "c"; "e"]%byte /\
  len (text accent_entry) <= len ["s"; "195"; "169"; "a"; "n"; "c"; "e"]%byte
    <= 4 * len (text accent_entry) /\
  (Forall (fun c => c < 0x80) (text accent_entry) ->
   ["s"; "195"; "169"; "a"; "n"; "c"; "e"]%byte
   = map byte_of_Z (text accent_entry)).
Proof.
  split; [vm_compute; reflexivity|].
  apply (data_length_bounds accent_entry). vm_compute. reflexivity.
Defined.

(* ================================================================== *)
(** * get_timestamp *)

Lemma round_quotient_exponent (a d : Z) :
  - 1074 <= snd (round_quotient a d)
  /\ snd (round_quotient a d) <= Z.max (Z.log2 a - Z.log2 d - 52) (- 1074) + 1.
Proof.
  unfold round_quotient.
  set (e0 := Z.log2 a - Z.log2 d - 52).
  set (scaled := fun e : Z => if 0 <=? e then (a, d * 2 ^ e) else (a * 2 ^ (- e), d)).
  set (e1 := let (n, m) := scaled e0 in if n / m <? 2 ^ 52 then e0 - 1 else e0).
  assert (He1 : e1 <= e0).
  { subst e1. destruct (scaled e0) as [n m]. destruct (n / m <? 2 ^ 52); lia. }
  destruct (scaled (Z.max e1 (-1074))) as [n m].
  repeat match goal with
  | |- context [if ?c then _ else _] => destruct c
  end; cbn [snd]; lia.
Qed.


Lemma int_truediv_exn (n d : Z) (x : exn) :
  int_truediv n d = Raise x -> x = ZeroDivisionError /\ d = 0 \/ x = OverflowError.
Proof.
  unfold int_truediv.
  destruct (Z.eqb_spec d 0) as [->|_]; [intros [= <-]; now left|].
  destruct (n =? 0); [discriminate|].
  destruct (round_quotient (Z.abs n) (Z.abs d)) as [q e].
  destruct (q <? 2 ^ 52); [discriminate|].
  destruct (2047 <=? e + 1075); [intros [= <-]; now right | discriminate].
Qed.

Lemma new_delta_exn (d s us : Z) (x : exn) :
  new_delta d s us = Raise x -> x = OverflowError.
Proof.
  unfold new_delta.
  destruct ((-999999999 <=? d + (s + us / 1000000) / 86400)
            && (d + (s + us / 1000000) / 86400 <=? 999999999)); [discriminate|].
  now intros [= <-].
Qed.





(** X7: get_timestamp raises TypeError exactly for a naive datetime, one
    without tzinfo, which cannot be subtracted from the aware base date. *)
Theorem get_timestamp_type_error (dt : datetime) :
  get_timestamp dt = Raise TypeError <-> tzinfo dt = None.
Proof.
  split.
  - unfold get_timestamp, datetime_sub. cbn [tzinfo BASE_DATE].
    destruct (tzinfo dt) as [off|]; [|reflexivity].
    intros H. exfalso.
    destruct (delta_sub off utc) as [offdiff|x] eqn:E1; cbn [bind] in H.
    2:{ apply new_delta_exn in E1. congruence. }
    match type of H with
    | context [new_delta ?d ?s ?u] =>
        destruct (new_delta d s u) as [r|x] eqn:E2
    end; cbn [bind] in H.
    2:{ apply new_delta_exn in E2. congruence. }
    destruct (delta_sub r offdiff) as [delta|x] eqn:E3; cbn [bind] in H.
    2:{ apply new_delta_exn in E3. congruence. }
    apply int_truediv_exn in H as [[H _]|H]; discriminate H.
  - intros H. unfold get_timestamp, datetime_sub. now rewrite H.
Qed.

Lemma get_timestamp_type_error_witness :
  tzinfo naive_date = None /\ get_timestamp naive_date = Raise TypeError.
Proof.
  split; [reflexivity|].
  apply (proj2 (get_timestamp_type_error naive_date)). reflexivity.
Defined.

(** X8: the timestamp depends on the instant only, not on the time zone the
    date is written in: two aware datetimes that denote the same instant get
    the same timestamp. *)
Theorem timestamp_of_instant (dt1 dt2 : datetime) (off1 off2 : timedelta)
    (ts1 ts2 : float64) :
  tzinfo dt1 = Some off1 -> tzinfo dt2 = Some off2 ->
  wall_us dt1 - delta_us off1 = wall_us dt2 - delta_us off2 ->
  get_timestamp dt1 = Ok ts1 -> get_timestamp dt2 = Ok ts2 ->
  ts1 = ts2.
Proof.
  intros Z1 Z2 Hi H1 H2.
  apply get_timestamp_elapsed in H1 as (o1 & Ho1 & H1).
  apply get_timestamp_elapsed in H2 as (o2 & Ho2 & H2).
  rewrite Z1 in Ho1. rewrite Z2 in Ho2.
  injection Ho1 as <-. injection Ho2 as <-.
  assert (He : elapsed_us dt1 off1 = elapsed_us dt2 off2)
    by (unfold elapsed_us; now rewrite Hi).
  rewrite He, H2 in H1. now apply Ok_inj in H1.
Qed.

Lemma timestamp_of_instant_witness :
  tzinfo (utc_date 2007 1 9) = Some utc /\
  tzinfo sample_date_plus2 = Some (mk_timedelta 0 7200 0) /\
  wall_us (utc_date 2007 1 9) - delta_us utc
  = wall_us sample_date_plus2 - delta_us (mk_timedelta 0 7200 0) /\
  get_timestamp (utc_date 2007 1 9) = Ok (F64 0x41A6A62500000000) /\
  get_timestamp sample_date_plus2 = Ok (F64 0x41A6A62500000000) /\
  F64 0x41A6A62500000000 = F64 0x41A6A62500000000.
Proof.
  split; [reflexivity|]. split; [reflexivity|].
  split; [vm_compute; reflexivity|].
  split; [vm_compute; reflexivity|]. split; [vm_compute; reflexivity|].
  apply (timestamp_of_instant (utc_date 2007 1 9) sample_date_plus2
           utc (mk_timedelta 0 7200 0)); vm_compute; reflexivity.
Defined.

Lemma div_lt_iff (n m k : Z) : 0 < m -> (n / m < k <-> n < k * m).
Proof.
  intros Hm. split; intros H.
  - pose proof (Z.mul_succ_div_gt n m Hm). nia.
  - apply Z.div_lt_upper_bound; [assumption | lia].
Qed.

Lemma round_quotient_significand (a d : Z) :
  0 < a -> 0 < d -> 0 <= fst (round_quotient a d) < 2 ^ 53.
Proof.
  intros Ha Hd. unfold round_quotient.
  set (e0 := Z.log2 a - Z.log2 d - 52).
  set (N := fun e : Z => a * 2 ^ Z.max (- e) 0).
  set (M := fun e : Z => d * 2 ^ Z.max e 0).
  assert (Hsc : forall e, (if 0 <=? e then (a, d * 2 ^ e) else (a * 2 ^ (- e), d))
                          = (N e, M e)).
  { intros e. unfold N, M. destruct (Z.leb_spec 0 e).
    - rewrite (Z.max_r (- e) 0), (Z.max_l e 0) by lia. f_equal. cbn. lia.
    - rewrite (Z.max_l (- e) 0), (Z.max_r e 0) by lia. f_equal. cbn. lia. }
  assert (HM : forall e, 0 < M e).
  { intros e. unfold M. apply Z.mul_pos_pos; [assumption|].
    apply Z.pow_pos_nonneg; lia. }
  assert (HN : forall e, 0 <= N e).
  { intros e. unfold N. apply Z.mul_nonneg_nonneg; [lia|].
    apply Z.pow_nonneg. lia. }
  rewrite !Hsc.
  destruct (Z.log2_spec a Ha) as [La Ua]. destruct (Z.log2_spec d Hd) as [Ld Ud].
  pose proof (Z.log2_nonneg a) as La0. pose proof (Z.log2_nonneg d) as Ld0.
  assert (F1 : N e0 < 2 ^ 53 * M e0).
  { unfold N, M.
    apply Z.lt_le_trans with (2 ^ Z.succ (Z.log2 a) * 2 ^ Z.max (- e0) 0).
    - apply Z.mul_lt_mono_pos_r; [apply Z.pow_pos_nonneg; lia | assumption].
    - rewrite <- Z.pow_add_r by lia.
      apply Z.le_trans with (2 ^ 53 * (2 ^ Z.log2 d * 2 ^ Z.max e0 0)).
      + rewrite <- !Z.pow_add_r by lia. apply Z.pow_le_mono_r; lia.
      + apply Z.mul_le_mono_nonneg_l; [lia|].
        apply Z.mul_le_mono_nonneg_r; [apply Z.pow_nonneg; lia | assumption]. }
  set (e1 := if N e0 / M e0 <? 2 ^ 52 then e0 - 1 else e0).
  assert (F2 : N e1 < 2 ^ 53 * M e1).
  { subst e1. destruct (Z.ltb_spec (N e0 / M e0) (2 ^ 52)) as [L|_]; [|exact F1].
    apply div_lt_iff in L; [|apply HM]. unfold N, M in *.
    destruct (Z.le_gt_cases 1 e0).
    - rewrite (Z.max_r (- (e0 - 1)) 0), (Z.max_l (e0 - 1) 0) by lia.
      rewrite (Z.max_r (- e0) 0), (Z.max_l e0 0) in L by lia.
      assert (Hp : 2 ^ e0 = 2 * 2 ^ (e0 - 1))
        by (rewrite <- Z.pow_succ_r by lia; f_equal; lia).
      rewrite Hp in L. change (2 ^ 53) with (2 ^ 52 * 2). lia.
    - rewrite (Z.max_l (- (e0 - 1)) 0), (Z.max_r (e0 - 1) 0) by lia.
      rewrite (Z.max_l (- e0) 0), (Z.max_r e0 0) in L by lia.
      assert (Hp : 2 ^ (- (e0 - 1)) = 2 * 2 ^ (- e0))
        by (rewrite <- Z.pow_succ_r by lia; f_equal; lia).
      rewrite Hp. change (2 ^ 53) with (2 ^ 52 * 2). lia. }
  assert (F3 : N (Z.max e1 (-1074)) < 2 ^ 53 * M (Z.max e1 (-1074))).
  { destruct (Z.le_gt_cases (- 1074) e1).
    - now rewrite Z.max_l by lia.
    - rewrite Z.max_r by lia. unfold N, M in *.
      rewrite (Z.max_l (- e1) 0), (Z.max_r e1 0) in F2 by lia.
      rewrite (Z.max_l (- -1074) 0), (Z.max_r (-1074) 0) by lia.
      eapply Z.le_lt_trans; [|exact F2].
      apply Z.mul_le_mono_nonneg_l; [lia|]. apply Z.pow_le_mono_r; lia. }
  fold e1.
  set (e := Z.max e1 (-1074)) in *.
  apply div_lt_iff in F3; [|apply HM].
  assert (Q0 : 0 <= N e / M e) by (apply Z.div_pos; [apply HN | apply HM]).
  set (q := N e / M e) in *.
  destruct ((M e <? 2 * (N e mod M e)) || ((M e =? 2 * (N e mod M e)) && Z.odd q)).
  - destruct (Z.eqb_spec (q + 1) (2 ^ 53)); cbn [fst]; lia.
  - destruct (Z.eqb_spec q (2 ^ 53)); cbn [fst]; lia.
Qed.

Lemma div_pow52 (k r : Z) :
  0 <= r < 2 ^ 52 -> (k * 2 ^ 52 + r) / 2 ^ 52 = k.
Proof.
  intros H. rewrite Z.add_comm, Z.div_add, Z.div_small by lia. reflexivity.
Qed.

Lemma int_truediv_bits (n d : Z) (f : float64) :
  0 < d -> int_truediv n d = Ok f ->
  0 <= float_bits f < 2 ^ 64 /\
  float_bits f / 2 ^ 52 mod 2 ^ 11 < 2047 /\
  (n < 0 <-> 2 ^ 63 <= float_bits f) /\
  (n = 0 -> f = F64 0).
Proof.
  intros Hd. unfold int_truediv.
  destruct (Z.eqb_spec d 0) as [|_]; [lia|].
  destruct (Z.eqb_spec n 0) as [->|Hn].
  { intros H. apply Ok_inj in H. subst f. cbn.
    repeat split; intros; try lia; try reflexivity. }
  pose proof (round_quotient_significand (Z.abs n) (Z.abs d)
                ltac:(lia) ltac:(lia)) as Hq.
  pose proof (round_quotient_exponent (Z.abs n) (Z.abs d)) as [He _].
  destruct (round_quotient (Z.abs n) (Z.abs d)) as [q e]. cbn [fst snd] in *.
  assert (Hs : (d <? 0) = false) by lia. rewrite Hs.
  replace (if n <? 0 then negb false else false) with (n <? 0)
    by (destruct (n <? 0); reflexivity).
  set (k := if n <? 0 then 2048 else 0).
  assert (Hk : (if n <? 0 then 2 ^ 63 else 0) = k * 2 ^ 52)
    by (subst k; destruct (n <? 0); reflexivity).
  assert (Hk' : n < 0 /\ k = 2048 \/ 0 < n /\ k = 0)
    by (subst k; destruct (Z.ltb_spec n 0); lia).
  rewrite Hk. clearbody k.
  destruct (Z.ltb_spec q (2 ^ 52)) as [Ql|Ql].
  - intros H. apply Ok_inj in H. subst f. cbn [float_bits].
    rewrite div_pow52 by lia.
    split; [lia|]. split; [destruct Hk' as [[_ ->]|[_ ->]]; reflexivity|].
    repeat split; intros; lia.
  - destruct (Z.leb_spec 2047 (e + 1075)) as [|Eb]; [discriminate|].
    intros H. apply Ok_inj in H. subst f. cbn [float_bits].
    replace (k * 2 ^ 52 + (e + 1075) * 2 ^ 52 + (q - 2 ^ 52))
      with ((k + (e + 1075)) * 2 ^ 52 + (q - 2 ^ 52)) by lia.
    rewrite div_pow52 by lia.
    split; [lia|]. split.
    { destruct Hk' as [[_ ->]|[_ ->]].
      - change 2048 with (1 * 2 ^ 11) at 1.
        rewrite Z.add_comm, Z.mod_add, Z.mod_small; lia.
      - rewrite Z.add_0_l, Z.mod_small; lia. }
    repeat split; intros; lia.
Qed.

(** X9: a timestamp is a finite binary64 value of 64 bits, and it is
    negative (its sign bit set) exactly for a date before 2001-01-01
    00:00:00 UTC; the base date itself gets 0.0. *)
Theorem timestamp_sign (dt : datetime) (off : timedelta) (ts : float64) :
  tzinfo dt = Some off ->
  get_timestamp dt = Ok ts ->
  0 <= float_bits ts < 2 ^ 64 /\
  float_bits ts / 2 ^ 52 mod 2 ^ 11 < 2047 /\
  (elapsed_us dt off < 0 <-> 2 ^ 63 <= float_bits ts) /\
  (elapsed_us dt off = 0 -> ts = F64 0).
Proof.
  intros Htz H. apply get_timestamp_elapsed in H as (o & Ho & H).
  rewrite Htz in Ho. injection Ho as <-.
  exact (int_truediv_bits (elapsed_us dt off) (10 ^ 6) ts eq_refl H).
Qed.

Lemma timestamp_sign_witness :
  tzinfo unix_epoch = Some utc /\
  get_timestamp unix_epoch = Ok (F64 0xC1CD27E440000000) /\
  0 <= float_bits (F64 0xC1CD27E440000000) < 2 ^ 64 /\
  float_bits (F64 0xC1CD27E440000000) / 2 ^ 52 mod 2 ^ 11 < 2047 /\
  (elapsed_us unix_epoch utc < 0 <-> 2 ^ 63 <= float_bits (F64 0xC1CD27E440000000)) /\
  (elapsed_us unix_epoch utc = 0 -> F64 0xC1CD27E440000000 = F64 0).
Proof.
  split; [reflexivity|]. split; [vm_compute; reflexivity|].
  apply (timestamp_sign unix_epoch utc); [reflexivity | vm_compute; reflexivity].
Defined.

(* ================================================================== *)
(** * The two files of one run *)

Lemma v2_from_v1 (es : list entry_data) (entries : list bytes) :
  mapM entry_v1 es = Ok entries ->
  exists ets,
    mapM entry_v2 es = Ok ets /\
    len (concat (map fst ets)) + 16 * len es <= len (concat entries).
Proof.
  revert entries. induction es as [|e r IH]; intros entries H; cbn [mapM] in H.
  - apply Ok_inj in H. subst. exists []. split; [reflexivity | cbn; lia].
  - bind_inv H. bind_inv H. apply Ok_inj in H. subst entries.
    destruct (IH _ eq_refl) as (ets & Hm & Hl).
    apply entry_v1_inv in E as (ts & data & Hts & Hd & Hr & ->).
    exists ((entry_body_v2 data
             ++ zeros ((4 - len (entry_body_v2 data) mod 4) mod 4), ts) :: ets).
    split.
    + cbn [mapM]. rewrite (entry_v2_ok e ts data Hts Hd). cbn [bind].
      now rewrite Hm.
    + cbn [map fst concat].
      pose proof (pad_range (len (entry_body_v2 data)) 4 ltac:(lia)) as P4.
      pose proof (pad_range (len (entry_header_v1 ts data ++ data)) 8 ltac:(lia)) as P8.
      set (p4 := (4 - len (entry_body_v2 data) mod 4) mod 4) in *.
      set (p8 := (8 - len (entry_header_v1 ts data ++ data) mod 8) mod 8) in *.
      rewrite !len_app, !len_zeros, len_entry_body_v2, len_entry_header_v1 by lia.
      replace (len (e :: r)) with (1 + len r) by (unfold len; cbn [length]; lia).
      lia.
Qed.

Lemma infos_from_packable (off : Z) (ets : list (bytes * float64)) :
  0 <= off -> off + len (concat (map fst ets)) < 2 ^ 32 ->
  Forall packable (infos_from off ets).
Proof.
  revert off. induction ets as [|et r IH]; intros off H0 H; [constructor|].
  cbn [infos_from map concat] in *. rewrite len_app in H.
  pose proof (len_nonneg (fst et)). pose proof (len_nonneg (concat (map fst r))).
  constructor.
  - unfold packable. cbn [offset state]. lia.
  - apply IH; lia.
Qed.

(** X10: whenever the script writes the version 1 file and the clock gives
    a timestamp, it also writes the version 2 file, and that file is at
    least 24 bytes shorter than the version 1 file. *)
Theorem both_files_written (now : datetime) (es : list entry_data) (a : bytes)
    (cts : float64) :
  segb_version1 es = Ok a ->
  get_timestamp now = Ok cts ->
  exists b, script now es = (Some a, Some b) /\ len b + 24 <= len a.
Proof.
  intros H Hts. unfold script. rewrite H.
  apply segb_version1_inv in H as (entries & Hm & R & ->).
  destruct (v2_from_v1 _ _ Hm) as (ets & Hm2 & Hl).
  pose proof (len_nonneg es) as Hn. pose proof (len_nonneg (concat (map fst ets))).
  rewrite (segb_version2_ok now es cts ets Hts Hm2)
    by (try apply infos_from_packable; lia).
  eexists. split; [reflexivity|].
  rewrite !len_app, len_header_v2_bytes, len_header_v1, len_concat_records.
  unfold len at 2. rewrite infos_from_length, (mapM_length _ _ _ Hm2).
  fold (len es). lia.
Qed.

Lemma both_files_written_witness :
  segb_version1 entries_data = Ok sample_v1 /\
  get_timestamp sample_now = Ok (F64 0x41C656116B8FCD68) /\
  exists b, script sample_now entries_data = (Some sample_v1, Some b) /\
            len b + 24 <= len sample_v1.
Proof.
  split; [vm_compute; reflexivity|]. split; [vm_compute; reflexivity|].
  apply (both_files_written sample_now entries_data sample_v1
           (F64 0x41C656116B8FCD68)); vm_compute; reflexivity.
Defined.

(** X11: the version 1 file determines the data of its records: two lists
    of entries written as the same version 1 file have the same data bytes,
    entry by entry. *)
Theorem v1_determines_data (es1 es2 : list entry_data) (out : bytes) :
  segb_version1 es1 = Ok out ->
  segb_version1 es2 = Ok out ->
  length es1 = length es2 /\ mapM data_bytes es1 = mapM data_bytes es2.
Proof.
  intros H1 H2.
  apply decode_v1_segb_version1 in H1 as (recs1 & D1 & M1 & _).
  apply decode_v1_segb_version1 in H2 as (recs2 & D2 & M2 & _).
  rewrite D1 in D2. injection D2 as <-.
  split; [|now rewrite M1, M2].
  apply mapM_length in M1, M2. rewrite length_map in M1, M2. lia.
Qed.

Lemma v1_determines_data_witness :
  segb_version1 entries_data = Ok sample_v1 /\
  segb_version1 entries_data_plus2 = Ok sample_v1 /\
  entries_data <> entries_data_plus2 /\
  length entries_data = length entries_data_plus2 /\
  mapM data_bytes entries_data = mapM data_bytes entries_data_plus2.
Proof.
  split; [vm_compute; reflexivity|]. split; [vm_compute; reflexivity|].
  split; [discriminate|].
  apply (v1_determines_data entries_data entries_data_plus2 sample_v1);
    vm_compute; reflexivity.
Defined.

Lemma concat_ge_32 (entries : list bytes) :
  Forall (fun entry => 0x20 <= len entry) entries ->
  0x20 * len entries <= len (concat entries).
Proof.
  induction 1 as [|x r Hx HF IH]; [cbn; lia|].
  cbn [concat]. rewrite len_app. unfold len in *. cbn [length]. lia.
Qed.

(** X12: a version 1 file that the script writes is shorter than 2^32
    bytes (for more the script raises instead of wrapping the end offset),
    and it has room for the header, 32 bytes per entry and the data of every
    entry. *)
Theorem v1_size_limit (es : list entry_data) (out : bytes) :
  segb_version1 es = Ok out ->
  len out < 2 ^ 32 /\
  0x38 + 0x20 * len es <= len out /\
  forall e data, In e es -> data_bytes e = Ok data ->
                 0x38 + 0x20 + len data <= len out.
Proof.
  intros H. apply segb_version1_inv in H as (entries & Hm & R & ->).
  rewrite len_app, len_header_v1.
  assert (HF : Forall (fun entry => 0x20 <= len entry) entries).
  { eapply mapM_Forall; [|exact Hm]. intros e entry He.
    apply entry_v1_inv in He as (ts & data & _ & _ & Hr & ->).
    rewrite !len_app, len_entry_header_v1.
    pose proof (len_nonneg (zeros ((8 - (32 + len data) mod 8) mod 8))). lia. }
  split; [lia|]. split.
  - apply concat_ge_32 in HF. unfold len at 1 in HF.
    rewrite (mapM_length _ _ _ Hm) in HF. fold (len es) in HF. lia.
  - intros e data Hin Hd. apply In_nth_error in Hin as (i & Hi).
    destruct (mapM_nth _ _ _ _ _ Hm Hi) as (entry & Hn & He).
    apply entry_v1_inv in He as (ts & data' & _ & Hd' & _ & He).
    unfold data_bytes in Hd. rewrite Hd in Hd'. apply Ok_inj in Hd'. subst data'.
    rewrite (concat_nth_split _ _ _ Hn), !len_app, He, !len_app, len_entry_header_v1.
    pose proof (len_nonneg (concat (firstn i entries))).
    pose proof (len_nonneg (concat (skipn (S i) entries))).
    pose proof (len_nonneg (zeros ((8 - (32 + len data) mod 8) mod 8))). lia.
Qed.

Lemma v1_size_limit_witness :
  segb_version1 entries_data = Ok sample_v1 /\
  len sample_v1 < 2 ^ 32 /\
  0x38 + 0x20 * len entries_data <= len sample_v1 /\
  forall e data, In e entries_data -> data_bytes e = Ok data ->
                 0x38 + 0x20 + len data <= len sample_v1.
Proof.
  split; [vm_compute; reflexivity|].
  apply (v1_size_limit entries_data sample_v1). vm_compute. reflexivity.
Defined.

Lemma v1_entry_slices (es : list entry_data) (a : bytes) (i : nat)
    (e : entry_data) :
  segb_version1 es = Ok a ->
  nth_error es i = Some e ->
  exists entries ts data,
    mapM entry_v1 es = Ok entries /\
    get_timestamp (date e) = Ok ts /\
    data_bytes e = Ok data /\
    let s := 0x38 + offset_of i entries in
    slice (s + 0x04) (s + 0x08) a = le_bytes 4 1 /\
    slice (s + 0x08) (s + 0x10) a = pack_d ts /\
    slice (s + 0x18) (s + 0x1C) a = le_bytes 4 (binascii_crc32 data) /\
    slice (s + 0x20) (s + 0x20 + len data) a = data.
Proof.
  intros H Hi.
  apply segb_version1_inv in H as (entries & Hm & R & ->).
  destruct (mapM_nth _ _ _ _ _ Hm Hi) as (entry & Hn & He).
  apply entry_v1_inv in He as (ts & data & Hts & Hd & Hl & He).
  exists entries, ts, data.
  split; [assumption|]. split; [assumption|]. split; [assumption|].
  cbv zeta.
  rewrite <- (len_header_v1 (0x38 + len (concat entries))).
  set (pre := header_v1 _).
  rewrite <- (app_nil_r (concat entries)).
  pose proof (len_nonneg data) as Hd0.
  assert (Hlen : 0x20 + len data <= len entry).
  { rewrite He, !len_app, len_entry_header_v1.
    pose proof (len_nonneg (zeros ((8 - (32 + len data) mod 8) mod 8))). lia. }
  rewrite <- !Z.add_assoc.
  rewrite !(Z.add_assoc (len pre)).
  rewrite !(slice_entry pre [] entries i entry) by (try assumption; lia).
  rewrite He.
  pose proof (unpadded_data V1 ts data
                (zeros ((8 - len (entry_header_v1 ts data ++ data) mod 8) mod 8)))
    as UD. cbn [data_pos unpadded] in UD. rewrite UD.
  rewrite <- app_assoc.
  destruct (entry_header_v1_fields ts data
              (data ++ zeros ((8 - len (entry_header_v1 ts data ++ data) mod 8) mod 8)))
    as (_ & F1 & F2 & _ & F4 & _).
  rewrite F1, F2, F4. repeat split; reflexivity.
Qed.

Lemma v2_entry_slices (now : datetime) (es : list entry_data) (b : bytes)
    (i : nat) (e : entry_data) :
  segb_version2 now es = Ok b ->
  nth_error es i = Some e ->
  exists ets entry ts data,
    mapM entry_v2 es = Ok ets /\
    nth_error ets i = Some (entry, ts) /\
    get_timestamp (date e) = Ok ts /\
    data_bytes e = Ok data /\
    len entry - (8 + len data) < 4 /\
    let s := 0x20 + offset_of i (map fst ets) in
    let t := len b - len es * 16 + 16 * Z.of_nat i in
    slice s (s + 0x04) b = le_bytes 4 (binascii_crc32 data) /\
    slice (s + 0x04) (s + 0x08) b = zeros 4 /\
    slice (s + 0x08) (s + 0x08 + len data) b = data /\
    slice (s + 0x08 + len data) (s + len entry) b
    = zeros (len entry - (8 + len data)) /\
    slice (t + 0x04) (t + 0x08) b = le_bytes 4 1 /\
    slice (t + 0x08) (t + 0x10) b = pack_d ts.
Proof.
  intros H Hi.
  apply segb_version2_parts in H
    as (cts & ets & trailer & Hts & Hm & R & -> & Ht & Hs & Hrec).
  destruct (mapM_nth _ _ _ _ _ Hm Hi) as ([entry ts] & Hn & He).
  apply entry_v2_facts in He as (data & pad & Hets & Hd & Hp & He & Hl & _).
  exists ets, entry, ts, data.
  split; [assumption|]. split; [assumption|]. split; [assumption|].
  split; [assumption|]. split; [lia|].
  cbv zeta. pose proof (len_nonneg data) as Hd0.
  assert (Hn' : nth_error (map fst ets) i = Some entry)
    by (now apply (map_nth_error fst) in Hn).
  rewrite Hs.
  rewrite <- (len_header_v2_bytes (len es) cts).
  set (pre := header_v2_bytes (len es) cts).
  set (o := offset_of i (map fst ets)).
  assert (E0 : forall lo hi, 0 <= lo -> hi <= len entry ->
             slice (len pre + o + lo) (len pre + o + hi)
                   (pre ++ concat (map fst ets) ++ trailer) = slice lo hi entry).
  { intros lo hi Hlo Hhi. now apply slice_entry. }
  destruct (entry_body_v2_fields data (zeros pad)) as (F0 & F1 & _).
  rewrite <- He in F0, F1.
  split.
  { rewrite <- (Z.add_0_r (len pre + o)) at 1. rewrite E0 by lia. exact F0. }
  split; [rewrite !E0 by lia; exact F1|].
  split.
  { rewrite <- !Z.add_assoc, !(Z.add_assoc (len pre)), E0 by lia.
    rewrite He. apply (unpadded_data V2 ts). }
  split.
  { replace (len pre + o + 8 + len data) with (len pre + o + (8 + len data)) by lia.
    rewrite E0 by lia. rewrite Hl.
    replace (8 + len data + pad - (8 + len data)) with pad by lia.
    rewrite He.
    pose proof (slice_app_r 0 pad (entry_body_v2 data) (zeros pad) ltac:(lia)) as S.
    rewrite len_entry_body_v2, Z.add_0_r in S. rewrite S.
    rewrite <- (len_zeros pad) at 1 by lia. apply slice_all. }
  destruct (Hrec _ _ Hn) as [_ Hr]. cbn [snd] in Hr. fold o in Hr.
  assert (T0 : forall lo hi, 0 <= lo -> hi <= 16 ->
             slice (len pre + len (concat (map fst ets)) + 16 * Z.of_nat i + lo)
                   (len pre + len (concat (map fst ets)) + 16 * Z.of_nat i + hi)
                   (pre ++ concat (map fst ets) ++ trailer)
             = slice lo hi (trailer_record (mk_entry_info o 1 ts))).
  { intros lo hi Hlo Hhi.
    rewrite <- len_app, app_assoc, <- !Z.add_assoc, slice_app_r by lia.
    rewrite <- Hr, slice_slice by lia. reflexivity. }
  rewrite !T0 by lia.
  unfold trailer_record. cbn [offset state timestamp].
  rewrite <- (app_nil_r (pack_d ts)).
  destruct (fields_4_4_8 (le_bytes 4 o) (le_bytes 4 1) (pack_d ts) [])
    as (_ & G1 & G2 & _); try apply length_le_bytes.
  split; assumption.
Qed.

(** X13: in a version 2 container the four bytes after the checksum of each
    entry are zero, and so are the bytes between the end of its data and the
    end of the entry, fewer than 4 of them. *)
Theorem v2_entry_zero_bytes (now : datetime) (es : list entry_data) (b : bytes)
    (i : nat) (e : entry_data) :
  segb_version2 now es = Ok b ->
  nth_error es i = Some e ->
  exists ets entry ts data,
    mapM entry_v2 es = Ok ets /\
    nth_error ets i = Some (entry, ts) /\
    data_bytes e = Ok data /\
    0 <= len entry - (8 + len data) < 4 /\
    let s := 0x20 + offset_of i (map fst ets) in
    slice (s + 0x04) (s + 0x08) b = zeros 4 /\
    slice (s + 0x08 + len data) (s + len entry) b
    = zeros (len entry - (8 + len data)).
Proof.
  intros H Hi.
  destruct (v2_entry_slices now es b i e H Hi)
    as (ets & entry & ts & data & Hm & Hn & _ & Hd & Hp & _ & S1 & _ & S3 & _).
  exists ets, entry, ts, data.
  split; [assumption|]. split; [assumption|]. split; [assumption|].
  split; [|split; assumption].
  split; [|assumption].
  destruct (mapM_nth _ _ _ _ _ Hm Hi) as (et & Hn' & He).
  rewrite Hn in Hn'. injection Hn' as <-.
  apply entry_v2_facts in He as (data' & pad & _ & Hd' & Hpad & _ & Hl & _).
  rewrite Hd in Hd'. apply Ok_inj in Hd'. subst data'. lia.
Qed.

Lemma v2_entry_zero_bytes_witness :
  segb_version2 sample_now entries_data = Ok sample_v2 /\
  nth_error entries_data 0 = Some sample_first /\
  exists ets entry ts data,
    mapM entry_v2 entries_data = Ok ets /\
    nth_error ets 0 = Some (entry, ts) /\
    data_bytes sample_first = Ok data /\
    0 <= len entry - (8 + len data) < 4 /\
    let s := 0x20 + offset_of 0 (map fst ets) in
    slice (s + 0x04) (s + 0x08) sample_v2 = zeros 4 /\
    slice (s + 0x08 + len data) (s + len entry) sample_v2
    = zeros (len entry - (8 + len data)).
Proof.
  split; [vm_compute; reflexivity|]. split; [reflexivity|].
  apply (v2_entry_zero_bytes sample_now entries_data sample_v2 0 sample_first);
    vm_compute; reflexivity.
Defined.

(** X14: the two files of one run agree on every record: its checksum, its
    data bytes, its state and its timestamp are the same bytes in the entry
    of the version 1 file and in the entry and trailer record of the
    version 2 file. *)
Theorem files_agree (now : datetime) (es : list entry_data) (a b : bytes)
    (i : nat) (e : entry_data) :
  script now es = (Some a, Some b) ->
  nth_error es i = Some e ->
  exists entries ets data,
    mapM entry_v1 es = Ok entries /\
    mapM entry_v2 es = Ok ets /\
    data_bytes e = Ok data /\
    let s1 := 0x38 + offset_of i entries in
    let s2 := 0x20 + offset_of i (map fst ets) in
    let t := len b - len es * 16 + 16 * Z.of_nat i in
    slice (s1 + 0x18) (s1 + 0x1C) a = slice s2 (s2 + 0x04) b /\
    slice (s1 + 0x20) (s1 + 0x20 + len data) a
    = slice (s2 + 0x08) (s2 + 0x08 + len data) b /\
    slice (s1 + 0x04) (s1 + 0x08) a = slice (t + 0x04) (t + 0x08) b /\
    slice (s1 + 0x08) (s1 + 0x10) a = slice (t + 0x08) (t + 0x10) b.
Proof.
  intros H Hi.
  assert (H1 : segb_version1 es = Ok a).
  { unfold script in H. destruct (segb_version1 es); [|discriminate H].
    now injection H as -> _. }
  assert (H2 : segb_version2 now es = Ok b)
    by (apply script_snd; now rewrite H).
  destruct (v1_entry_slices es a i e H1 Hi)
    as (entries & ts & data & Hm1 & Hts & Hd & A1 & A2 & A3 & A4).
  destruct (v2_entry_slices now es b i e H2 Hi)
    as (ets & entry & ts' & data' & Hm2 & _ & Hts' & Hd' & _ & B0 & _ & B2 & _ & B4 & B5).
  rewrite Hts in Hts'. apply Ok_inj in Hts'. subst ts'.
  rewrite Hd in Hd'. apply Ok_inj in Hd'. subst data'.
  exists entries, ets, data.
  split; [assumption|]. split; [assumption|]. split; [assumption|].
  cbv zeta. rewrite A1, A2, A3, A4, B0, B2, B4, B5. repeat split; reflexivity.
Qed.

Lemma files_agree_witness :
  script sample_now entries_data = (Some sample_v1, Some sample_v2) /\
  nth_error entries_data 1 = Some sample_entry /\
  exists entries ets data,
    mapM entry_v1 entries_data = Ok entries /\
    mapM entry_v2 entries_data = Ok ets /\
    data_bytes sample_entry = Ok data /\
    let s1 := 0x38 + offset_of 1 entries in
    let s2 := 0x20 + offset_of 1 (map fst ets) in
    let t := len sample_v2 - len entries_data * 16 + 16 * Z.of_nat 1 in
    slice (s1 + 0x18) (s1 + 0x1C) sample_v1 = slice s2 (s2 + 0x04) sample_v2 /\
    slice (s1 + 0x20) (s1 + 0x20 + len data) sample_v1
    = slice (s2 + 0x08) (s2 + 0x08 + len data) sample_v2 /\
    slice (s1 + 0x04) (s1 + 0x08) sample_v1 = slice (t + 0x04) (t + 0x08) sample_v2 /\
    slice (s1 + 0x08) (s1 + 0x10) sample_v1 = slice (t + 0x08) (t + 0x10) sample_v2.
Proof.
  split; [vm_compute; reflexivity|]. split; [reflexivity|].
  apply (files_agree sample_now entries_data sample_v1 sample_v2 1 sample_entry);
    vm_compute; reflexivity.
Defined.
